(** * Question actions of the Q&A platform (src/lib/actions/question.action.ts)

    A shallow embedding of the server actions over the document store:
    the five collections are lists of documents in natural (insertion)
    order, every action is a function on an explicit world (store, console,
    invalidated cache paths) that either completes normally or throws. *)

From Stdlib Require Import ZArith String Ascii List Bool Lia.
From Stdlib Require Import Sorted Permutation.
From stdpp Require Import base tactics decidable option list numbers strings.

Local Open Scope string_scope.
Local Open Scope Z_scope.
Local Open Scope list_scope.

(** ** Documents *)

(** Object identifiers, in the order in which the store hands them out. *)
Definition ObjectId := N.
Bind Scope N_scope with ObjectId.

(** Modelled from the spec: the schemas of the five models
    (@/database/*.model), which the action file imports and which are not
    part of it.  The records hold the fields of the data model that the
    actions read or write, and the answers array whose size the unanswered
    filter asks for. *)

Module User.
Record t := mk {
  _id : ObjectId;
  clerkId : string;
  reputation : Z }.
End User.

Module Tag.
Record t := mk {
  _id : ObjectId;
  name : string;
  questions : list ObjectId }.
End Tag.

Module Question.
Record t := mk {
  _id : ObjectId;
  title : string;
  content : string;
  author : ObjectId;
  tags : list ObjectId;
  upvotes : list ObjectId;
  downvotes : list ObjectId;
  views : Z;
  answers : list ObjectId;
  createdAt : Z }.
End Question.

Module Interaction.
Record t := mk {
  _id : ObjectId;
  user : ObjectId;
  action : string;
  question : ObjectId;
  tags : list ObjectId }.
End Interaction.

Module Answer.
Record t := mk {
  _id : ObjectId;
  question : ObjectId }.
End Answer.

(** Every model exposes the identifier of its documents. *)
Class Document (A : Type) := doc_id : A → ObjectId.

#[global] Instance user_document : Document User.t := User._id.
#[global] Instance tag_document : Document Tag.t := Tag._id.
#[global] Instance question_document : Document Question.t := Question._id.
#[global] Instance interaction_document : Document Interaction.t :=
  Interaction._id.
#[global] Instance answer_document : Document Answer.t := Answer._id.

(** ** Collections: the model methods the actions call *)

Section Collection.
Context {A : Type} `{Document A}.

(** [Model.findById(id)]: the first document carrying the identifier. *)
Fixpoint findById (id : ObjectId) (l : list A) : option A :=
  match l with
  | [] => None
  | d :: r => if decide (doc_id d = id) then Some d else findById id r
  end.

(** The write half of [Model.findByIdAndUpdate(id, update)]. *)
Fixpoint updateById (id : ObjectId) (f : A → A) (l : list A) : list A :=
  match l with
  | [] => []
  | d :: r =>
      if decide (doc_id d = id) then f d :: r else d :: updateById id f r
  end.

(** [Model.deleteOne({ _id: id })]. *)
Fixpoint deleteOne (id : ObjectId) (l : list A) : list A :=
  match l with
  | [] => []
  | d :: r => if decide (doc_id d = id) then r else d :: deleteOne id r
  end.

(** [Model.deleteMany(filter)]. *)
Definition deleteMany (p : A → bool) (l : list A) : list A :=
  List.filter (λ d, negb (p d)) l.

(** [Model.updateMany(filter, update)]. *)
Definition updateMany (p : A → bool) (f : A → A) (l : list A) : list A :=
  List.map (λ d, if p d then f d else d) l.

(** [Model.find(filter)], in natural order. *)
Definition find (p : A → bool) (l : list A) : list A := List.filter p l.

(** [Model.countDocuments(filter)]. *)
Definition countDocuments (p : A → bool) (l : list A) : Z :=
  Z.of_nat (length (List.filter p l)).

(** [Model.findOne(filter)]: the first match in natural order, with its
    position. *)
Fixpoint findOne (p : A → bool) (l : list A) : option (nat * A) :=
  match l with
  | [] => None
  | d :: r =>
      if p d then Some (O, d)
      else match findOne p r with
           | Some (i, d') => Some (S i, d')
           | None => None
           end
  end.
End Collection.

(** The identifiers of a collection are pairwise distinct. *)
Definition unique_ids {A} `{Document A} (l : list A) : Prop :=
  NoDup (List.map doc_id l).

(** ** Array update operators *)

(** [$pull]: every occurrence goes. *)
Definition pull (v : ObjectId) (a : list ObjectId) : list ObjectId :=
  List.filter (λ x, negb (N.eqb x v)) a.

(** [$push]: appended, duplicates allowed. *)
Definition push (v : ObjectId) (a : list ObjectId) : list ObjectId := a ++ [v].

(** [$addToSet]: appended unless present. *)
Definition addToSet (v : ObjectId) (a : list ObjectId) : list ObjectId :=
  if List.existsb (N.eqb v) a then a else a ++ [v].

Inductive UpdateOp :=
| op_pull (path : string) (v : ObjectId)
| op_push (path : string) (v : ObjectId)
| op_pushEach (path : string) (vs : list ObjectId)
| op_addToSet (path : string) (v : ObjectId).

(** The array paths of the Question schema.  An update on a path the schema
    does not have is dropped when the update is cast and leaves the document
    as it is. *)
Definition question_array (path : string)
    (f : list ObjectId → list ObjectId) (q : Question.t) : Question.t :=
  if decide (path = "upvotes") then
    Question.mk (Question._id q) (Question.title q) (Question.content q)
      (Question.author q) (Question.tags q) (f (Question.upvotes q))
      (Question.downvotes q) (Question.views q) (Question.answers q)
      (Question.createdAt q)
  else if decide (path = "downvotes") then
    Question.mk (Question._id q) (Question.title q) (Question.content q)
      (Question.author q) (Question.tags q) (Question.upvotes q)
      (f (Question.downvotes q)) (Question.views q) (Question.answers q)
      (Question.createdAt q)
  else if decide (path = "tags") then
    Question.mk (Question._id q) (Question.title q) (Question.content q)
      (Question.author q) (f (Question.tags q)) (Question.upvotes q)
      (Question.downvotes q) (Question.views q) (Question.answers q)
      (Question.createdAt q)
  else if decide (path = "answers") then
    Question.mk (Question._id q) (Question.title q) (Question.content q)
      (Question.author q) (Question.tags q) (Question.upvotes q)
      (Question.downvotes q) (Question.views q) (f (Question.answers q))
      (Question.createdAt q)
  else q.

Definition apply_op (op : UpdateOp) : Question.t → Question.t :=
  match op with
  | op_pull path v => question_array path (pull v)
  | op_push path v => question_array path (push v)
  | op_pushEach path vs => question_array path (λ a, a ++ vs)
  | op_addToSet path v => question_array path (addToSet v)
  end.

Definition apply_update (u : list UpdateOp) (q : Question.t) : Question.t :=
  fold_left (λ q op, apply_op op q) u q.

(** [$inc: { reputation: d }]. *)
Definition inc_reputation (d : Z) (u : User.t) : User.t :=
  User.mk (User._id u) (User.clerkId u) (User.reputation u + d).

(** ** The world and the action monad *)

Record Database := mkDatabase {
  Questions : list Question.t;
  Tags : list Tag.t;
  Users : list User.t;
  Interactions : list Interaction.t;
  Answers : list Answer.t }.

Inductive Exception :=
| Error (message : string)
| SyntaxError (pattern : string)
| TypeError (message : string)
| MongoServerError (message : string).

Record World := mkWorld {
  db : Database;
  next_oid : ObjectId;      (* the next identifier the store generates *)
  now : Z;                  (* Date.now *)
  console : list Exception; (* what console.error received *)
  revalidated : list string (* paths given to revalidatePath *) }.

Inductive Completion (A : Type) :=
| Normal (a : A)
| Throw (e : Exception).
Arguments Normal {A} a.
Arguments Throw {A} e.

Definition Action (A : Type) : Type := World → Completion A * World.

#[global] Instance action_ret : MRet Action := λ A a w, (Normal a, w).
#[global] Instance action_bind : MBind Action := λ A B k m w,
  match m w with
  | (Normal a, w') => k a w'
  | (Throw e, w') => (Throw e, w')
  end.

Definition throw {A} (e : Exception) : Action A := λ w, (Throw e, w).

(** [try { body } catch (error) { handler }]. *)
Definition try_catch {A} (body : Action A) (handler : Exception → Action A)
    : Action A := λ w,
  match body w with
  | (Normal a, w') => (Normal a, w')
  | (Throw e, w') => handler e w'
  end.

Definition get_db : Action Database := λ w, (Normal (db w), w).

Definition put_db (d : Database) : Action unit := λ w,
  (Normal tt, mkWorld d (next_oid w) (now w) (console w) (revalidated w)).

Definition console_error (e : Exception) : Action unit := λ w,
  (Normal tt,
   mkWorld (db w) (next_oid w) (now w) (console w ++ [e]) (revalidated w)).

Definition revalidatePath (path : string) : Action unit := λ w,
  (Normal tt,
   mkWorld (db w) (next_oid w) (now w) (console w) (revalidated w ++ [path])).

(** A fresh identifier for a document about to be inserted. *)
Definition new_ObjectId : Action ObjectId := λ w,
  (Normal (next_oid w),
   mkWorld (db w) (N.succ (next_oid w)) (now w) (console w) (revalidated w)).

Definition Date_now : Action Z := λ w, (Normal (now w), w).

(** Modelled from the spec: connectToDatabase of ../mongoose; establishing
    the connection is idempotent, the connection is reused, and a call
    changes nothing in the store. *)
Definition connectToDatabase : Action unit := mret tt.

(** ** Store accesses of the actions *)

Definition set_Questions (l : list Question.t) (d : Database) : Database :=
  mkDatabase l (Tags d) (Users d) (Interactions d) (Answers d).
Definition set_Tags (l : list Tag.t) (d : Database) : Database :=
  mkDatabase (Questions d) l (Users d) (Interactions d) (Answers d).
Definition set_Users (l : list User.t) (d : Database) : Database :=
  mkDatabase (Questions d) (Tags d) l (Interactions d) (Answers d).
Definition set_Interactions (l : list Interaction.t) (d : Database) : Database :=
  mkDatabase (Questions d) (Tags d) (Users d) l (Answers d).
Definition set_Answers (l : list Answer.t) (d : Database) : Database :=
  mkDatabase (Questions d) (Tags d) (Users d) (Interactions d) l.

(** [Question.findById(id)]. *)
Definition Question_findById (id : ObjectId) : Action (option Question.t) :=
  d ← get_db; mret (findById id (Questions d)).

(** [Question.findByIdAndUpdate(id, update, { new: true })]: the updated
    document, or null when the identifier resolves to nothing. *)
Definition Question_findByIdAndUpdate (id : ObjectId) (u : list UpdateOp)
    : Action (option Question.t) :=
  d ← get_db;
  put_db (set_Questions (updateById id (apply_update u) (Questions d)) d);;
  mret (apply_update u <$> findById id (Questions d)).

(** [User.findByIdAndUpdate(id, { $inc: { reputation: n } })]. *)
Definition User_inc_reputation (id : ObjectId) (n : Z) : Action unit :=
  d ← get_db;
  put_db (set_Users (updateById id (inc_reputation n) (Users d)) d).

(** ** Parameters of the actions *)

(** Modelled from the spec: the parameter types of ./shared.types, which the
    action file imports; the fields are the inputs per operation, as each
    action destructures them. *)

Module QuestionVoteParams.
Record t := mk {
  questionId : ObjectId;
  userId : ObjectId;
  hasAlreadyUpvoted : bool;
  hasAlreadyDownvoted : bool;
  path : string }.
End QuestionVoteParams.

Module EditQuestionParams.
Record t := mk {
  questionId : ObjectId;
  title : string;
  content : string;
  path : string }.
End EditQuestionParams.

Module DeleteQuestionParams.
Record t := mk {
  questionId : ObjectId;
  path : string }.
End DeleteQuestionParams.

Module GetQuestionByIdParams.
Record t := mk { questionId : ObjectId }.
End GetQuestionByIdParams.

Module CreateQuestionParams.
Record t := mk {
  title : string;
  content : string;
  tags : list string;
  author : ObjectId;
  path : string }.
End CreateQuestionParams.

(** Optional fields are [None] when the caller leaves them undefined. *)
Module GetQuestionsParams.
Record t := mk {
  searchQuery : option string;
  filter : option string;
  page : option Z;
  pageSize : option Z }.
End GetQuestionsParams.

Module RecommendedParams.
Record t := mk {
  userId : string;
  page : option Z;
  pageSize : option Z;
  searchQuery : option string }.
End RecommendedParams.

(** ** Voting *)

Definition upvoteQuestion (params : QuestionVoteParams.t) : Action unit :=
  try_catch
    (connectToDatabase;;
     let '(QuestionVoteParams.mk questionId userId hasAlreadyUpvoted
             hasAlreadyDownvoted path) := params in
     let updateQuery :=
       if hasAlreadyUpvoted then
         [op_pull "upvotes" userId]
       else if hasAlreadyDownvoted then
         [op_pull "downvotes" userId; op_push "upvotes" userId]
       else
         [op_addToSet "upvotes" userId] in
     question ← Question_findByIdAndUpdate questionId updateQuery;
     match question with
     | None => throw (Error "Question not found")
     | Some question =>
         User_inc_reputation userId (if hasAlreadyUpvoted then -2 else 2);;
         User_inc_reputation (Question.author question)
           (if hasAlreadyUpvoted then -10 else 10);;
         revalidatePath path
     end)
    (λ error, console_error error;; throw error).

Definition downvoteQuestion (params : QuestionVoteParams.t) : Action unit :=
  try_catch
    (connectToDatabase;;
     let '(QuestionVoteParams.mk questionId userId hasAlreadyUpvoted
             hasAlreadyDownvoted path) := params in
     let updateQuery :=
       if hasAlreadyDownvoted then
         [op_pull "downvote" userId]
       else if hasAlreadyUpvoted then
         [op_pull "upvotes" userId; op_push "downvotes" userId]
       else
         [op_addToSet "downvotes" userId] in
     question ← Question_findByIdAndUpdate questionId updateQuery;
     match question with
     | None => throw (Error "Question not found")
     | Some question =>
         User_inc_reputation userId (if hasAlreadyDownvoted then -2 else 2);;
         User_inc_reputation (Question.author question)
           (if hasAlreadyDownvoted then -10 else 10);;
         revalidatePath path
     end)
    (λ error, console_error error;; throw error).

(** ** Populated results *)

(** [.populate({ path: "tags", model: Tag })]: the referenced tags that
    exist, in the order of the references. *)
Definition populate_tags (d : Database) (ids : list ObjectId) : list Tag.t :=
  omap (λ id, findById id (Tags d)) ids.

(** A question with its tag and author paths populated; a reference that
    resolves to nothing leaves the author null. *)
Record PopulatedQuestion := mkPopulated {
  pq_doc : Question.t;
  pq_tags : list Tag.t;
  pq_author : option User.t }.

Definition populate_question (d : Database) (q : Question.t)
    : PopulatedQuestion :=
  mkPopulated q (populate_tags d (Question.tags q))
    (findById (Question.author q) (Users d)).

(** ** Fetching, editing, deleting *)

(** What [select: "_id name"] keeps of a populated tag. *)
Module TagView.
Record t := mk {
  _id : ObjectId;
  name : string }.
End TagView.

(** What [select: "_id clerkId name picture"] keeps of the populated
    author: of the four paths, the user record holds the identifier and the
    clerk id; the reputation is not selected. *)
Module AuthorView.
Record t := mk {
  _id : ObjectId;
  clerkId : string }.
End AuthorView.

Definition select_tag (t : Tag.t) : TagView.t :=
  TagView.mk (Tag._id t) (Tag.name t).

Definition select_author (u : User.t) : AuthorView.t :=
  AuthorView.mk (User._id u) (User.clerkId u).

(** A question with the selected paths of its tags and of its author. *)
Record SelectedQuestion := mkSelected {
  sq_doc : Question.t;
  sq_tags : list TagView.t;
  sq_author : option AuthorView.t }.

(** [.populate({ path: "tags", model: Tag, select: "_id name" })
     .populate({ path: "author", model: User,
                 select: "_id clerkId name picture" })]. *)
Definition populate_selected (d : Database) (q : Question.t)
    : SelectedQuestion :=
  mkSelected q (List.map select_tag (populate_tags d (Question.tags q)))
    (select_author <$> findById (Question.author q) (Users d)).

Definition getQuestionById (params : GetQuestionByIdParams.t)
    : Action (option SelectedQuestion) :=
  try_catch
    (connectToDatabase;;
     let '(GetQuestionByIdParams.mk questionId) := params in
     d ← get_db;
     question ← Question_findById questionId;
     mret (populate_selected d <$> question))
    (λ error, console_error error;; throw error).

(** [question.title = title; question.content = content]. *)
Definition set_title_content (title content : string) (q : Question.t)
    : Question.t :=
  Question.mk (Question._id q) title content (Question.author q)
    (Question.tags q) (Question.upvotes q) (Question.downvotes q)
    (Question.views q) (Question.answers q) (Question.createdAt q).

(** [question.save()] after the two assignments. *)
Definition Question_save (id : ObjectId) (title content : string)
    : Action unit :=
  d ← get_db;
  put_db (set_Questions
            (updateById id (set_title_content title content) (Questions d)) d).

Definition editQuestion (params : EditQuestionParams.t) : Action unit :=
  try_catch
    (connectToDatabase;;
     let '(EditQuestionParams.mk questionId title content path) := params in
     question ← Question_findById questionId;
     match question with
     | None => throw (Error "Question not found")
     | Some question =>
         Question_save (Question._id question) title content;;
         revalidatePath path
     end)
    (λ error, console_error error).

Definition Question_deleteOne (id : ObjectId) : Action unit :=
  d ← get_db; put_db (set_Questions (deleteOne id (Questions d)) d).

Definition Answer_deleteMany (question : ObjectId) : Action unit :=
  d ← get_db;
  put_db (set_Answers
            (deleteMany (λ a, N.eqb (Answer.question a) question)
               (Answers d)) d).

Definition Interaction_deleteMany (question : ObjectId) : Action unit :=
  d ← get_db;
  put_db (set_Interactions
            (deleteMany (λ i, N.eqb (Interaction.question i) question)
               (Interactions d)) d).

(** [$pull: { questions: id }] on a tag. *)
Definition pull_question (id : ObjectId) (t : Tag.t) : Tag.t :=
  Tag.mk (Tag._id t) (Tag.name t) (pull id (Tag.questions t)).

(** [Tag.updateMany({ questions: id }, { $pull: { questions: id } })]. *)
Definition Tag_pull_question (id : ObjectId) : Action unit :=
  d ← get_db;
  put_db (set_Tags
            (updateMany (λ t, List.existsb (N.eqb id) (Tag.questions t))
               (pull_question id) (Tags d)) d).

Definition deleteQuestion (params : DeleteQuestionParams.t) : Action unit :=
  try_catch
    (connectToDatabase;;
     let '(DeleteQuestionParams.mk questionId path) := params in
     question ← Question_findById questionId;
     Question_deleteOne questionId;;
     Answer_deleteMany questionId;;
     Interaction_deleteMany questionId;;
     Tag_pull_question questionId;;
     match question with
     | None =>
         throw (TypeError "Cannot read properties of null (reading 'author')")
     | Some question => User_inc_reputation (Question.author question) (-5)
     end;;
     revalidatePath path)
    (λ error, console_error error).

(** ** Filter queries on questions *)

Inductive Condition :=
| title_regex (re : string → bool)          (* { title: { $regex } } *)
| content_regex (re : string → bool)        (* { content: { $regex } } *)
| tags_in (ids : list ObjectId)             (* { tags: { $in: ids } } *)
| author_ne (id : ObjectId).                (* { author: { $ne: id } } *)

(** The top-level keys the actions set on a [FilterQuery]; the keys that are
    present are all required to hold. *)
Record FilterQuery := mkQuery {
  q_and : option (list Condition);  (* $and *)
  q_or : option (list Condition);   (* $or *)
  q_answers_size : option nat       (* answers: { $size: n } *) }.

Definition empty_query : FilterQuery := mkQuery None None None.

Definition set_or (cs : list Condition) (q : FilterQuery) : FilterQuery :=
  mkQuery (q_and q) (Some cs) (q_answers_size q).

Definition set_answers_size (n : nat) (q : FilterQuery) : FilterQuery :=
  mkQuery (q_and q) (q_or q) (Some n).

Definition holds (c : Condition) (q : Question.t) : bool :=
  match c with
  | title_regex re => re (Question.title q)
  | content_regex re => re (Question.content q)
  | tags_in ids =>
      List.existsb (λ t, List.existsb (N.eqb t) ids) (Question.tags q)
  | author_ne id => negb (N.eqb (Question.author q) id)
  end.

Definition matches (fq : FilterQuery) (q : Question.t) : bool :=
  match q_and fq with
  | Some cs => List.forallb (λ c, holds c q) cs
  | None => true
  end
  && match q_or fq with
     | Some cs => List.existsb (λ c, holds c q) cs
     | None => true
     end
  && match q_answers_size fq with
     | Some n => Nat.eqb (length (Question.answers q)) n
     | None => true
     end.

(** ** Sorting, skipping, limiting *)

Inductive SortOptions :=
| sort_none                 (* {} *)
| sort_createdAt_desc       (* { createdAt: -1 } *)
| sort_views_desc.          (* { views: -1 } *)

Fixpoint insert_desc {A} (key : A → Z) (x : A) (l : list A) : list A :=
  match l with
  | [] => [x]
  | y :: r => if key y <=? key x then x :: y :: r else y :: insert_desc key x r
  end.

(** Descending by key; documents with equal keys keep their natural order. *)
Definition sort_desc {A} (key : A → Z) (l : list A) : list A :=
  fold_right (insert_desc key) [] l.

Definition apply_sort (s : SortOptions) (l : list Question.t)
    : list Question.t :=
  match s with
  | sort_none => l
  | sort_createdAt_desc => sort_desc Question.createdAt l
  | sort_views_desc => sort_desc Question.views l
  end.

(** [.limit(n)]: zero means no limit, a negative limit counts as its
    absolute value. *)
Definition apply_limit {A} (n : Z) (l : list A) : list A :=
  if n =? 0 then l else take (Z.to_nat (Z.abs n)) l.

(** [Question.find(query).skip(s).limit(n).sort(o)]: the store sorts, then
    skips, then limits, whatever the order of the calls; it rejects a
    negative skip. *)
Definition Question_find (query : FilterQuery) (s n : Z) (o : SortOptions)
    : Action (list Question.t) :=
  d ← get_db;
  if s <? 0 then throw (MongoServerError "Skip value must be non-negative")
  else mret (apply_limit n
               (drop (Z.to_nat s) (apply_sort o (find (matches query)
                                                   (Questions d))))).

Definition Question_countDocuments (query : FilterQuery) : Action Z :=
  d ← get_db; mret (countDocuments (matches query) (Questions d)).

(** A string is truthy unless it is undefined or empty. *)
Definition truthy (s : option string) : option string :=
  match s with
  | Some "" => None
  | o => o
  end.

(** [...new Set(l)]: the distinct values, by first occurrence. *)
Fixpoint distinct (l : list ObjectId) : list ObjectId :=
  match l with
  | [] => []
  | x :: r => x :: List.filter (λ y, negb (N.eqb y x)) (distinct r)
  end.

(** ** Actions that match text *)

(** Regular expressions under the flag "i" are the JavaScript runtime's and
    the store's business: a pattern is either rejected or decides which
    strings it matches. *)
Class RegExpEngine := RegExp_i : string → option (string → bool).

Section Actions.
Context `{RegExpEngine}.

(** [new RegExp(source, "i")]. *)
Definition new_RegExp_i (source : string) : Action (string → bool) :=
  match RegExp_i source with
  | Some re => mret re
  | None => throw (SyntaxError source)
  end.

(** [{ $regex: source, $options: "i" }], checked by the store. *)
Definition mongo_regex_i (source : string) : Action (string → bool) :=
  match RegExp_i source with
  | Some re => mret re
  | None => throw (MongoServerError "Regular expression is invalid")
  end.

Definition getQuestions (params : GetQuestionsParams.t)
    : Action (list PopulatedQuestion * bool) :=
  try_catch
    (connectToDatabase;;
     let '(GetQuestionsParams.mk searchQuery filter page pageSize) :=
       params in
     let page := default 1 page in
     let pageSize := default 10 pageSize in
     let skipAmount := (page - 1) * pageSize in
     let query := empty_query in
     query ← match truthy searchQuery with
              | Some searchQuery =>
                  re ← new_RegExp_i searchQuery;
                  mret (set_or [title_regex re; content_regex re] query)
              | None => mret query
              end;
     let '(sortOptions, query) :=
       if decide (filter = Some "newest") then (sort_createdAt_desc, query)
       else if decide (filter = Some "frequent") then (sort_views_desc, query)
       else if decide (filter = Some "unanswered") then
         (sort_none, set_answers_size 0 query)
       else (sort_none, query) in
     d ← get_db;
     questions ← Question_find query skipAmount pageSize sortOptions;
     let questions := List.map (populate_question d) questions in
     totalQuestions ← Question_countDocuments query;
     let isNext :=
       skipAmount + Z.of_nat (length questions) <? totalQuestions in
     mret (questions, isNext))
    (λ error, console_error error;; throw error).

(** [Question.create({ title, content, author })]: the arrays start
    empty, the counters at zero, the creation time is the clock's. *)
Definition Question_create (title content : string) (author : ObjectId)
    : Action Question.t :=
  id ← new_ObjectId;
  createdAt ← Date_now;
  let question :=
    Question.mk id title content author [] [] [] 0 [] createdAt in
  d ← get_db;
  put_db (set_Questions (Questions d ++ [question]) d);;
  mret question.

(** [$push: { questions: id }] on a tag. *)
Definition push_question (id : ObjectId) (t : Tag.t) : Tag.t :=
  Tag.mk (Tag._id t) (Tag.name t) (push id (Tag.questions t)).

(** [Tag.findOneAndUpdate({ name: { $regex: new RegExp(`^${tag}$`, "i") } },
      { $setOnInsert: { name: tag }, $push: { questions: question } },
      { upsert: true, new: true })]. *)
Definition Tag_findOneAndUpdate (tag : string) (question : ObjectId)
    : Action Tag.t :=
  re ← new_RegExp_i ("^" +:+ tag +:+ "$");
  d ← get_db;
  match findOne (λ t, re (Tag.name t)) (Tags d) with
  | Some (i, t) =>
      let t' := push_question question t in
      put_db (set_Tags (<[i:=t']> (Tags d)) d);;
      mret t'
  | None =>
      id ← new_ObjectId;
      let t' := Tag.mk id tag [question] in
      put_db (set_Tags (Tags d ++ [t']) d);;
      mret t'
  end.

(** [for (const tag of tags) { ...; tagDocuments.push(existingTag._id) }]. *)
Fixpoint resolve_tags (question : ObjectId) (tags : list string)
    (tagDocuments : list ObjectId) : Action (list ObjectId) :=
  match tags with
  | [] => mret tagDocuments
  | tag :: tags =>
      existingTag ← Tag_findOneAndUpdate tag question;
      resolve_tags question tags (tagDocuments ++ [Tag._id existingTag])
  end.

Definition Interaction_create (user : ObjectId) (action : string)
    (question : ObjectId) (tags : list ObjectId) : Action unit :=
  id ← new_ObjectId;
  d ← get_db;
  put_db (set_Interactions
            (Interactions d ++ [Interaction.mk id user action question tags])
            d).

Definition createQuestion (params : CreateQuestionParams.t) : Action unit :=
  try_catch
    (connectToDatabase;;
     let '(CreateQuestionParams.mk title content tags author path) :=
       params in
     question ← Question_create title content author;
     tagDocuments ← resolve_tags (Question._id question) tags [];
     Question_findByIdAndUpdate (Question._id question)
       [op_pushEach "tags" tagDocuments];;
     Interaction_create author "ask_question" (Question._id question)
       tagDocuments;;
     User_inc_reputation author 5;;
     revalidatePath path)
    (λ error, console_error error).

(** [User.findOne({ clerkId })]. *)
Definition User_findOne (clerkId : string) : Action (option User.t) :=
  d ← get_db;
  mret (snd <$> findOne (λ u, String.eqb (User.clerkId u) clerkId) (Users d)).

(** [Interaction.find({ user }).populate("tags")]: the tag documents of
    each interaction of the user. *)
Definition Interaction_find_populated (user : ObjectId)
    : Action (list (list Tag.t)) :=
  d ← get_db;
  mret (List.map (λ i, populate_tags d (Interaction.tags i))
          (find (λ i, N.eqb (Interaction.user i) user) (Interactions d))).

Definition getRecommendedQuestions (params : RecommendedParams.t)
    : Action (list PopulatedQuestion * bool) :=
  try_catch
    (connectToDatabase;;
     let '(RecommendedParams.mk userId page pageSize searchQuery) :=
       params in
     let page := default 1 page in
     let pageSize := default 10 pageSize in
     user ← User_findOne userId;
     match user with
     | None => throw (Error "user not found")
     | Some user =>
         let skipAmount := (page - 1) * pageSize in
         userInteractions ← Interaction_find_populated (User._id user);
         let userTags :=
           fold_left (λ tags interaction, tags ++ interaction)
             userInteractions [] in
         let distinctUserTagIds := distinct (List.map Tag._id userTags) in
         let query :=
           mkQuery
             (Some [tags_in distinctUserTagIds; author_ne (User._id user)])
             None None in
         query ← match truthy searchQuery with
                  | Some searchQuery =>
                      re ← mongo_regex_i searchQuery;
                      mret (set_or [title_regex re; content_regex re] query)
                  | None => mret query
                  end;
         totalQuestions ← Question_countDocuments query;
         d ← get_db;
         recommendedQuestions ← Question_find query skipAmount pageSize
                                  sort_none;
         let recommendedQuestions :=
           List.map (populate_question d) recommendedQuestions in
         let isNext :=
           skipAmount + Z.of_nat (length recommendedQuestions)
           <? totalQuestions in
         mret (recommendedQuestions, isNext)
     end)
    (λ error, console_error error;; throw error).
End Actions.

(** ** Observations on a store *)

(** The reputation of a user, when the user has a document. *)
Definition reputation_of (id : ObjectId) (users : list User.t) : option Z :=
  User.reputation <$> findById id users.

(** What the two reputation updates of a vote of sign [s] amount to: 2 for
    the voter and 10 for the author, both on the same document when the
    voter wrote the question, nothing for anybody else. *)
Definition reputation_shift (s : Z) (voter author : ObjectId)
    (before after : list User.t) : Prop :=
  (voter ≠ author →
     reputation_of voter after = (λ r, r + 2 * s) <$> reputation_of voter before
     ∧ reputation_of author after
       = (λ r, r + 10 * s) <$> reputation_of author before)
  ∧ (voter = author →
       reputation_of voter after
       = (λ r, r + 12 * s) <$> reputation_of voter before)
  ∧ (∀ u, u ≠ voter → u ≠ author →
       reputation_of u after = reputation_of u before).

(** The sign of a vote: -1 when it takes back a vote of its own kind. *)
Definition vote_sign (takes_back : bool) : Z := if takes_back then -1 else 1.

(** ** Descriptions of the worlds after a call *)

(** The update a vote sends for the question. *)
Definition upvote_update (voter : ObjectId) (up down : bool) : list UpdateOp :=
  if up then [op_pull "upvotes" voter]
  else if down then [op_pull "downvotes" voter; op_push "upvotes" voter]
  else [op_addToSet "upvotes" voter].

Definition downvote_update (voter : ObjectId) (up down : bool)
    : list UpdateOp :=
  if down then [op_pull "downvote" voter]
  else if up then [op_pull "upvotes" voter; op_push "downvotes" voter]
  else [op_addToSet "downvotes" voter].

(** The world after a vote on a question that exists. *)
Definition voted (u : list UpdateOp) (s : Z) (qid voter author : ObjectId)
    (path : string) (w : World) : World :=
  mkWorld
    (mkDatabase
       (updateById qid (apply_update u) (Questions (db w)))
       (Tags (db w))
       (updateById author (inc_reputation (10 * s))
          (updateById voter (inc_reputation (2 * s)) (Users (db w))))
       (Interactions (db w)) (Answers (db w)))
    (next_oid w) (now w) (console w) (revalidated w ++ [path]).

(** The world after an action logged an error and did nothing else. *)
Definition logged (e : Exception) (w : World) : World :=
  mkWorld (db w) (next_oid w) (now w) (console w ++ [e]) (revalidated w).

(** The world after deleteQuestion on a question that exists. *)
Definition deleted (qid author : ObjectId) (path : string) (w : World)
    : World :=
  mkWorld
    (mkDatabase
       (deleteOne qid (Questions (db w)))
       (updateMany (λ t, List.existsb (N.eqb qid) (Tag.questions t))
          (pull_question qid) (Tags (db w)))
       (updateById author (inc_reputation (-5)) (Users (db w)))
       (deleteMany (λ i, N.eqb (Interaction.question i) qid)
          (Interactions (db w)))
       (deleteMany (λ a, N.eqb (Answer.question a) qid) (Answers (db w))))
    (next_oid w) (now w) (console w) (revalidated w ++ [path]).

(** ** Listing: what the queries select *)

Section Selection.
Context `{RegExpEngine}.

(** The search text selects the questions whose title or content the
    pattern matches; no text selects all. *)
Definition search_matches (searchQuery : option string) (q : Question.t)
    : bool :=
  match truthy searchQuery with
  | Some s =>
      match RegExp_i s with
      | Some re => re (Question.title q) || re (Question.content q)
      | None => false
      end
  | None => true
  end.

(** The questions a listing request is about. *)
Definition listed (searchQuery filter : option string) (q : Question.t)
    : bool :=
  search_matches searchQuery q
  && (if decide (filter = Some "unanswered")
      then Nat.eqb (length (Question.answers q)) 0 else true).

(** The sort a filter value asks for. *)
Definition sort_of (filter : option string) : SortOptions :=
  if decide (filter = Some "newest") then sort_createdAt_desc
  else if decide (filter = Some "frequent") then sort_views_desc
  else sort_none.

(** The tag references of the interaction history of a user. *)
Definition history_tags (d : Database) (user : ObjectId) : list ObjectId :=
  flat_map Interaction.tags
    (find (λ i, N.eqb (Interaction.user i) user) (Interactions d)).

(** The questions a recommendation request of a user is about. *)
Definition recommended (d : Database) (ids : list ObjectId)
    (user : ObjectId) (searchQuery : option string) (q : Question.t)
    : bool :=
  List.existsb (λ t, List.existsb (N.eqb t) ids) (Question.tags q)
  && negb (N.eqb (Question.author q) user)
  && search_matches searchQuery q.
End Selection.

(** The tag identifiers a recommendation looks for: those of the tag
    documents of the user's interactions, made distinct. *)
Definition distinctUserTagIds (d : Database) (user : ObjectId)
    : list ObjectId :=
  distinct
    (List.map Tag._id
       (fold_left (λ tags interaction, tags ++ interaction)
          (List.map (λ i, populate_tags d (Interaction.tags i))
             (find (λ i, N.eqb (Interaction.user i) user) (Interactions d)))
          [])).

(** ** Counting references *)

(** How often a reference occurs in an array. *)
Definition occurrences (v : ObjectId) (a : list ObjectId) : nat :=
  length (List.filter (N.eqb v) a).

(** How often the tag [tag] lists the question [question]; a tag that does
    not exist lists nothing. *)
Definition refs (question tag : ObjectId) (tags : list Tag.t) : nat :=
  match findById tag tags with
  | Some t => occurrences question (Tag.questions t)
  | None => 0%nat
  end.

(** The identifier and the name of a tag never change once it is stored. *)
Definition tag_key (t : Tag.t) : ObjectId * string := (Tag._id t, Tag.name t).

(** [later] holds the tags of [earlier] at the same places, under the same
    identifiers and names, and maybe more tags behind them. *)
Definition extends (earlier later : list Tag.t) : Prop :=
  List.map tag_key earlier `prefix_of` List.map tag_key later.

(** The tag identifiers are distinct and older than the next identifier of
    the store. *)
Definition tags_wf (w : World) : Prop :=
  unique_ids (Tags (db w))
  ∧ ∀ t, In t (Tags (db w)) → (Tag._id t < next_oid w)%N.

(** The world with another tag collection and identifier supply. *)
Definition with_Tags (l : list Tag.t) (n : ObjectId) (w : World) : World :=
  mkWorld (set_Tags l (db w)) n (now w) (console w) (revalidated w).

(** The pattern createQuestion builds for a tag name. *)
Definition exactly (tag : string) : string := "^" +:+ tag +:+ "$".

(** The world once the question is created. *)
Definition asked (title content : string) (author : ObjectId) (w : World)
    : World :=
  mkWorld
    (set_Questions
       (Questions (db w)
        ++ [Question.mk (next_oid w) title content author [] [] [] 0 []
              (now w)])
       (db w))
    (N.succ (next_oid w)) (now w) (console w) (revalidated w).

(** The world at the end of createQuestion, when the loop over the names
    ended with the identifiers [docs], the tags [l'] and the supply [n']. *)
Definition question_created (title content : string) (author : ObjectId)
    (path : string) (docs : list ObjectId) (l' : list Tag.t)
    (n' : ObjectId) (w : World) : World :=
  mkWorld
    (mkDatabase
       (updateById (next_oid w) (apply_update [op_pushEach "tags" docs])
          (Questions (db (asked title content author w))))
       l'
       (updateById author (inc_reputation 5) (Users (db w)))
       (Interactions (db w)
        ++ [Interaction.mk n' author "ask_question" (next_oid w) docs])
       (Answers (db w)))
    (N.succ n') (now w) (console w) (revalidated w ++ [path]).

(** ** An engine for literal patterns *)

(** Letters and digits stand for themselves in a pattern; under the flag
    "i" a letter matches both of its cases. *)
Definition is_alnum (c : ascii) : bool :=
  let n := N_of_ascii c in
  ((48 <=? n) && (n <=? 57) || (65 <=? n) && (n <=? 90)
   || (97 <=? n) && (n <=? 122))%N.

Definition lower (c : ascii) : ascii :=
  let n := N_of_ascii c in
  if ((65 <=? n) && (n <=? 90))%N then ascii_of_N (n + 32) else c.

Fixpoint toLowerCase (s : string) : string :=
  match s with
  | EmptyString => EmptyString
  | String c r => String (lower c) (toLowerCase r)
  end.

Fixpoint literal (s : string) : bool :=
  match s with
  | EmptyString => true
  | String c r => is_alnum c && literal r
  end.

(** [hay.includes(needle)]. *)
Fixpoint includes (needle hay : string) : bool :=
  String.prefix needle hay
  || match hay with
     | EmptyString => false
     | String _ r => includes needle r
     end.

(** The body of a pattern that ends in "$". *)
Fixpoint before_dollar (s : string) : option string :=
  match s with
  | EmptyString => None
  | String c EmptyString => if Ascii.eqb c "$" then Some EmptyString else None
  | String c r => String c <$> before_dollar r
  end.

(** An engine for the literal fragment, to run the actions on examples: it
    decides the patterns [^word$] (the whole string is the word, whatever
    the case) and [word] (the string holds the word, whatever the case),
    [word] made of letters and digits.  It rejects every other pattern,
    which the engine of the runtime need not. *)
Definition literal_engine : RegExpEngine := λ source,
  match source with
  | String "^" rest =>
      match before_dollar rest with
      | Some body =>
          if literal body
          then Some (λ s, String.eqb (toLowerCase s) (toLowerCase body))
          else None
      | None => None
      end
  | _ =>
      if literal source
      then Some (λ s, includes (toLowerCase source) (toLowerCase s))
      else None
  end.

(** The engine reads the case of letters away: the patterns of two names
    made of letters and digits that differ only in letter case are accepted
    and select the same strings, the first name among them. *)
Definition case_insensitive_names `{RegExpEngine} : Prop :=
  ∀ t1 t2,
    literal t1 = true → literal t2 = true →
    toLowerCase t1 = toLowerCase t2 →
    ∃ re1 re2,
      RegExp_i (exactly t1) = Some re1
      ∧ RegExp_i (exactly t2) = Some re2
      ∧ re1 t1 = true
      ∧ ∀ s, re2 s = re1 s.

(** ** A small store to run the actions on *)

(** Alice (1) asked question 10, tagged rust (20); Bob (2) downvoted it and
    answered it. *)
Definition alice : User.t := User.mk 1 "clerk_alice" 100.
Definition bob : User.t := User.mk 2 "clerk_bob" 50.

Definition sample_question : Question.t :=
  Question.mk 10 "Borrowing twice" "Why is the second borrow rejected" 1
    [20%N] [] [2%N] 7 [40%N] 1000.

Definition sample_db : Database :=
  mkDatabase [sample_question] [Tag.mk 20 "rust" [10%N]] [alice; bob]
    [Interaction.mk 30 1 "ask_question" 10 [20%N];
     Interaction.mk 31 2 "answer" 10 [20%N]]
    [Answer.mk 40 10].

Definition sample_world : World := mkWorld sample_db 50 2000 [] [].

(** A store with one user and nothing else. *)
Definition bare_world : World :=
  mkWorld (mkDatabase [] [] [alice] [] []) 50 2000 [] [].

(** ** Hot questions *)

(** Insertion into a list sorted by [before]; [x] goes in front of the first
    document it may precede. *)
Fixpoint insert_by {A} (before : A → A → bool) (x : A) (l : list A)
    : list A :=
  match l with
  | [] => [x]
  | y :: r => if before x y then x :: y :: r else y :: insert_by before x r
  end.

(** A sort by [before] that keeps the natural order of documents neither of
    which has to precede the other. *)
Definition sort_by {A} (before : A → A → bool) (l : list A) : list A :=
  fold_right (insert_by before) [] l.

(** The key of an array field under a descending sort: its largest element;
    an empty array comes after every other. *)
Definition array_desc_key (a : list ObjectId) : option ObjectId :=
  match a with
  | [] => None
  | x :: r => Some (fold_left N.max r x)
  end.

Definition key_le (a b : option ObjectId) : bool :=
  match a, b with
  | None, _ => true
  | Some _, None => false
  | Some x, Some y => (x <=? y)%N
  end.

(** [{ views: -1, upvotes: -1 }]: [x] may precede [y] when it has more
    views, or as many and an upvotes key that is not smaller. *)
Definition hot_before (x y : Question.t) : bool :=
  (Question.views y <? Question.views x)
  || (Question.views x =? Question.views y)
     && key_le (array_desc_key (Question.upvotes y))
          (array_desc_key (Question.upvotes x)).

(** [Question.find({}).sort({ views: -1, upvotes: -1 }).limit(5)]. *)
Definition Question_find_hot : Action (list Question.t) :=
  d ← get_db;
  mret (apply_limit 5 (sort_by hot_before (find (λ _, true) (Questions d)))).

Definition getHotQuestions : Action (list Question.t) :=
  try_catch
    (connectToDatabase;;
     hotQuestions ← Question_find_hot;
     mret hotQuestions)
    (λ error, console_error error;; throw error).

(** [x] has at least the views of [y]. *)
Definition more_views (x y : Question.t) : Prop :=
  Question.views y ≤ Question.views x.

(** ** What an update leaves alone *)

(** Two versions of a question that differ in their vote arrays at most. *)
Definition same_but_votes (q q' : Question.t) : Prop :=
  Question._id q' = Question._id q
  ∧ Question.title q' = Question.title q
  ∧ Question.content q' = Question.content q
  ∧ Question.author q' = Question.author q
  ∧ Question.tags q' = Question.tags q
  ∧ Question.views q' = Question.views q
  ∧ Question.answers q' = Question.answers q
  ∧ Question.createdAt q' = Question.createdAt q.

(** ** More to observe and to run on *)

(** Whether a tag reference resolves to a tag of the store. *)
Definition tag_exists (d : Database) (id : ObjectId) : bool :=
  match findById id (Tags d) with
  | Some _ => true
  | None => false
  end.

(** [x] is not older than [y]. *)
Definition newer (x y : Question.t) : Prop :=
  Question.createdAt y ≤ Question.createdAt x.

(** A store whose tag and answer still refer to a question 11 that is not
    there. *)
Definition stale_world : World :=
  mkWorld
    (mkDatabase [sample_question] [Tag.mk 20 "rust" [11%N]] [alice] []
       [Answer.mk 41 11])
    50 2000 [] [].

(** Three questions by Alice and Bob, asked at times 1, 3 and 2, with 5, 1
    and 9 views; the second has no answer. *)
Definition three_questions : list Question.t :=
  [Question.mk 10 "Borrowing twice" "Why is it rejected" 1 [20%N] [] [] 5
     [40%N] 1;
   Question.mk 11 "Lifetimes" "What does it mean" 2 [20%N] [] [] 1 [] 3;
   Question.mk 12 "Traits" "When to borrow one" 1 [] [] [] 9 [41%N] 2].

Definition listing_world : World :=
  mkWorld
    (mkDatabase three_questions [Tag.mk 20 "rust" [10%N; 11%N]] [alice; bob]
       [Interaction.mk 30 1 "ask_question" 10 [20%N]] [])
    50 2000 [] [].

(** Every tag of [earlier] is still in [later] under its identifier, with
    the references it had and maybe more. *)
Definition keeps_refs (earlier later : list Tag.t) : Prop :=
  ∀ t, In t earlier →
    ∃ t', In t' later
          ∧ Tag._id t' = Tag._id t
          ∧ ∀ r, In r (Tag.questions t) → In r (Tag.questions t').

(** ** Running an action *)

(** Opens the store accesses of an action, then the monad under them. *)
Ltac open_store :=
  unfold Question_findById, Question_findByIdAndUpdate, Question_save,
    Question_deleteOne, Question_find, Question_countDocuments,
    Question_create, User_inc_reputation, User_findOne, Answer_deleteMany,
    Interaction_deleteMany, Interaction_create, Interaction_find_populated,
    Tag_pull_question, new_RegExp_i, mongo_regex_i.

Ltac open_monad :=
  unfold try_catch, throw, get_db, put_db, console_error, revalidatePath,
    new_ObjectId, Date_now, connectToDatabase, mbind, mret, action_bind,
    action_ret.

Ltac run := open_store; open_monad; simpl.

(** ** Facts on collections *)

Section CollectionFacts.
Context {A : Type} `{Document A}.

Lemma updateById_absent id f (l : list A) :
  findById id l = None → updateById id f l = l.
Proof.
  induction l as [|d r IH]; simpl; [done|].
  destruct (decide (doc_id d = id)); [done|].
  intros Hr. by rewrite IH.
Qed.

Lemma findById_updateById id id' f (l : list A) :
  (∀ d, doc_id (f d) = doc_id d) →
  findById id' (updateById id f l)
  = if decide (id = id') then f <$> findById id' l else findById id' l.
Proof.
  intros Hf. induction l as [|d r IH]; simpl.
  - by destruct (decide (id = id')).
  - destruct (decide (doc_id d = id)) as [Hd|Hd]; simpl.
    + rewrite Hf. destruct (decide (doc_id d = id')) as [Hd'|Hd'].
      * subst. by rewrite decide_True.
      * subst. by rewrite decide_False.
    + destruct (decide (doc_id d = id')) as [Hd'|Hd'].
      * subst. by rewrite decide_False.
      * exact IH.
Qed.

Lemma findById_In id (l : list A) d :
  findById id l = Some d → In d l ∧ doc_id d = id.
Proof.
  induction l as [|x r IH]; simpl; [done|].
  destruct (decide (doc_id x = id)).
  - intros [= ->]. auto.
  - intros Hr. destruct (IH Hr). auto.
Qed.

Lemma findById_None id (l : list A) :
  findById id l = None ↔ ¬ In id (List.map doc_id l).
Proof.
  induction l as [|x r IH]; simpl; [tauto|].
  destruct (decide (doc_id x = id)); [split; [done|tauto]|].
  rewrite IH. tauto.
Qed.

Lemma deleteOne_gone id (l : list A) :
  unique_ids l → findById id (deleteOne id l) = None.
Proof.
  unfold unique_ids. induction l as [|x r IH]; simpl; [done|].
  intros Hnd. apply NoDup_cons in Hnd as [Hx Hr].
  destruct (decide (doc_id x = id)) as [<-|Hne].
  - apply findById_None. by rewrite <- list_elem_of_In.
  - simpl. rewrite decide_False by done. auto.
Qed.

Lemma deleteOne_other id id' (l : list A) :
  id ≠ id' → findById id' (deleteOne id l) = findById id' l.
Proof.
  intros Hne. induction l as [|x r IH]; simpl; [done|].
  destruct (decide (doc_id x = id)) as [Hx|Hx].
  - rewrite decide_False by congruence. done.
  - simpl. by rewrite IH.
Qed.
End CollectionFacts.

Lemma set_Questions_same d : set_Questions (Questions d) d = d.
Proof. by destruct d. Qed.

Lemma question_array_id p f q :
  Question._id (question_array p f q) = Question._id q.
Proof. unfold question_array. by repeat case_decide. Qed.

Lemma question_array_author p f q :
  Question.author (question_array p f q) = Question.author q.
Proof. unfold question_array. by repeat case_decide. Qed.

Lemma apply_update_id u q : Question._id (apply_update u q) = Question._id q.
Proof.
  unfold apply_update. revert q.
  induction u as [|op u IH]; intros q; simpl; [done|].
  rewrite IH. destruct op; apply question_array_id.
Qed.

Lemma apply_update_author u q :
  Question.author (apply_update u q) = Question.author q.
Proof.
  unfold apply_update. revert q.
  induction u as [|op u IH]; intros q; simpl; [done|].
  rewrite IH. destruct op; apply question_array_author.
Qed.

Lemma reputation_of_inc id n u (users : list User.t) :
  reputation_of u (updateById id (inc_reputation n) users)
  = if decide (id = u) then (λ r, r + n) <$> reputation_of u users
    else reputation_of u users.
Proof.
  unfold reputation_of. rewrite findById_updateById by done.
  case_decide; [|done]. by destruct (findById u users).
Qed.

(** The two increments of a vote, read user by user. *)
Lemma two_increments_shift s voter author (users : list User.t) :
  reputation_shift s voter author users
    (updateById author (inc_reputation (10 * s))
       (updateById voter (inc_reputation (2 * s)) users)).
Proof.
  repeat split.
  - rewrite !reputation_of_inc.
    rewrite (decide_False (P := author = voter)) by done.
    by rewrite decide_True.
  - rewrite !reputation_of_inc.
    rewrite decide_True by done. by rewrite decide_False.
  - intros <-. rewrite !reputation_of_inc, !decide_True by done.
    destruct (reputation_of voter users); simpl; [f_equal; lia|done].
  - intros u Hv Ha. rewrite !reputation_of_inc.
    by rewrite !decide_False.
Qed.

(** ** Voting: what a call does *)

Lemma upvoteQuestion_found w qid voter up down path q :
  findById qid (Questions (db w)) = Some q →
  upvoteQuestion (QuestionVoteParams.mk qid voter up down path) w
  = (Normal tt,
     voted (upvote_update voter up down) (vote_sign up) qid voter
       (Question.author q) path w).
Proof.
  intros Hq. unfold upvoteQuestion, voted, upvote_update, vote_sign. run.
  destruct up, down; simpl; rewrite Hq; simpl;
    rewrite ?apply_update_author; reflexivity.
Qed.

Lemma downvoteQuestion_found w qid voter up down path q :
  findById qid (Questions (db w)) = Some q →
  downvoteQuestion (QuestionVoteParams.mk qid voter up down path) w
  = (Normal tt,
     voted (downvote_update voter up down) (vote_sign down) qid voter
       (Question.author q) path w).
Proof.
  intros Hq. unfold downvoteQuestion, voted, downvote_update, vote_sign. run.
  destruct up, down; simpl; rewrite Hq; simpl;
    rewrite ?apply_update_author; reflexivity.
Qed.

Lemma upvoteQuestion_absent w qid voter up down path :
  findById qid (Questions (db w)) = None →
  upvoteQuestion (QuestionVoteParams.mk qid voter up down path) w
  = (Throw (Error "Question not found"),
     logged (Error "Question not found") w).
Proof.
  intros Hq. unfold upvoteQuestion, logged. run.
  destruct up, down; simpl; rewrite Hq; simpl;
    rewrite updateById_absent, set_Questions_same by done; reflexivity.
Qed.

Lemma downvoteQuestion_absent w qid voter up down path :
  findById qid (Questions (db w)) = None →
  downvoteQuestion (QuestionVoteParams.mk qid voter up down path) w
  = (Throw (Error "Question not found"),
     logged (Error "Question not found") w).
Proof.
  intros Hq. unfold downvoteQuestion, logged. run.
  destruct up, down; simpl; rewrite Hq; simpl;
    rewrite updateById_absent, set_Questions_same by done; reflexivity.
Qed.

(** ** Voting: the claims *)

(** C1 (as amended): on an existing question both votes complete, and the
    reputations move by the sign of the vote: the voter's by 2 and the
    author's by 10 when they are two users, by 12 when the voter wrote the
    question, nobody else's; the sign is -1 exactly when the call takes back
    a vote of its own kind (as the caller reports it). *)
Theorem vote_reputation_by_sign w params q :
  findById (QuestionVoteParams.questionId params) (Questions (db w)) = Some q →
  (∃ w', upvoteQuestion params w = (Normal tt, w')
         ∧ reputation_shift
             (vote_sign (QuestionVoteParams.hasAlreadyUpvoted params))
             (QuestionVoteParams.userId params) (Question.author q)
             (Users (db w)) (Users (db w')))
  ∧ (∃ w', downvoteQuestion params w = (Normal tt, w')
           ∧ reputation_shift
               (vote_sign (QuestionVoteParams.hasAlreadyDownvoted params))
               (QuestionVoteParams.userId params) (Question.author q)
               (Users (db w)) (Users (db w'))).
Proof.
  destruct params as [qid voter up down path]; simpl. intros Hq. split.
  - eexists. split; [by apply upvoteQuestion_found|].
    apply two_increments_shift.
  - eexists. split; [by apply downvoteQuestion_found|].
    apply two_increments_shift.
Qed.

Lemma vote_reputation_by_sign_witness :
  findById 10%N (Questions (db sample_world)) = Some sample_question
  ∧ ∃ w', upvoteQuestion
            (QuestionVoteParams.mk 10 2 false false "/question/10")
            sample_world = (Normal tt, w')
          ∧ reputation_of 2%N (Users (db w')) = Some 52
          ∧ reputation_of 1%N (Users (db w')) = Some 110.
Proof.
  split; [reflexivity|].
  destruct (vote_reputation_by_sign sample_world
              (QuestionVoteParams.mk 10 2 false false "/question/10")
              sample_question eq_refl) as [(w' & Hrun & Hne & _) _].
  exists w'. split; [exact Hrun|].
  destruct Hne as [Hv Ha]; [done|]. split; [exact Hv | exact Ha].
Defined.

(** C1 as stated fails when the voter wrote the question: Alice upvotes her
    own question and her reputation moves by 12, neither by 2 nor by 10. *)
Lemma upvote_own_question_counterexample :
  let params := QuestionVoteParams.mk 10 1 false false "/question/10" in
  let w' := snd (upvoteQuestion params sample_world) in
  Question.author <$> findById 10%N (Questions (db sample_world)) = Some 1%N
  ∧ fst (upvoteQuestion params sample_world) = Normal tt
  ∧ reputation_of 1%N (Users (db sample_world)) = Some 100
  ∧ reputation_of 1%N (Users (db w')) = Some 112
  ∧ reputation_of 1%N (Users (db w')) ≠ Some (100 + 2)
  ∧ reputation_of 1%N (Users (db w')) ≠ Some (100 + 10).
Proof. vm_compute. repeat split; congruence. Qed.

(** C2: the claim is what the upvote path does, the code misses it.  Bob
    takes back his downvote: the call completes and charges the
    reputations, and Bob is still in the downvotes of the question. *)
Lemma downvote_taken_back_stays :
  let params := QuestionVoteParams.mk 10 2 false true "/question/10" in
  let w' := snd (downvoteQuestion params sample_world) in
  Question.downvotes <$> findById 10%N (Questions (db sample_world))
  = Some [2%N]
  ∧ fst (downvoteQuestion params sample_world) = Normal tt
  ∧ Question.downvotes <$> findById 10%N (Questions (db w')) = Some [2%N]
  ∧ reputation_of 2%N (Users (db w')) = Some 48
  ∧ reputation_of 1%N (Users (db w')) = Some 90.
Proof. vm_compute. repeat split. Qed.

Lemma updateById_same {A} `{Document A} id f (l : list A) :
  (∀ d, f d = d) → updateById id f l = l.
Proof.
  intros Hf. induction l as [|d r IH]; simpl; [done|].
  case_decide; by rewrite ?Hf, ?IH.
Qed.

(** Whatever the store, a downvote that is reported as taking the vote back
    leaves every question, vote arrays included, as it was. *)
Lemma downvote_taken_back_questions w qid voter up path :
  Questions (db (snd (downvoteQuestion
                        (QuestionVoteParams.mk qid voter up true path) w)))
  = Questions (db w).
Proof.
  destruct (findById qid (Questions (db w))) as [q|] eqn:Hq.
  - rewrite (downvoteQuestion_found _ _ _ _ _ _ _ Hq). simpl.
    by apply updateById_same.
  - by rewrite (downvoteQuestion_absent _ _ _ _ _ _ Hq).
Qed.

Lemma pull_not_In v a : ¬ In v (pull v a).
Proof.
  unfold pull. rewrite filter_In. intros [_ Hv].
  by rewrite N.eqb_refl in Hv.
Qed.

Lemma push_In v a : In v (push v a).
Proof. unfold push. apply in_or_app. right. by left. Qed.

(** C3: an upvote reported as coming from a downvote takes the user out of
    the downvotes and puts the user into the upvotes of the question in the
    one update, so that the user is in the upvotes only; the reputations get
    the two increments of the adding sign, +2 for the voter and +10 for the
    author. *)
Theorem upvote_switches_from_downvote w params q :
  findById (QuestionVoteParams.questionId params) (Questions (db w)) = Some q →
  QuestionVoteParams.hasAlreadyUpvoted params = false →
  QuestionVoteParams.hasAlreadyDownvoted params = true →
  let voter := QuestionVoteParams.userId params in
  ∃ w' q',
    upvoteQuestion params w = (Normal tt, w')
    ∧ findById (QuestionVoteParams.questionId params) (Questions (db w'))
      = Some q'
    ∧ Question.downvotes q' = pull voter (Question.downvotes q)
    ∧ Question.upvotes q' = push voter (Question.upvotes q)
    ∧ ¬ In voter (Question.downvotes q')
    ∧ In voter (Question.upvotes q')
    ∧ Users (db w')
      = updateById (Question.author q) (inc_reputation 10)
          (updateById voter (inc_reputation 2) (Users (db w)))
    ∧ reputation_shift 1 voter (Question.author q)
        (Users (db w)) (Users (db w')).
Proof.
  destruct params as [qid voter up down path]; simpl.
  intros Hq -> ->.
  eexists. exists (apply_update (upvote_update voter false true) q).
  split; [by apply upvoteQuestion_found|]. simpl.
  split.
  { rewrite (findById_updateById (A := Question.t)), decide_True, Hq; [done..|].
    intros d. apply (apply_update_id [_; _]). }
  split; [done|]. split; [done|].
  split; [apply pull_not_In|]. split; [apply push_In|].
  split; [done|]. apply (two_increments_shift 1).
Qed.

Lemma upvote_switches_from_downvote_witness :
  findById 10%N (Questions (db sample_world)) = Some sample_question
  ∧ ∃ w' q',
      upvoteQuestion (QuestionVoteParams.mk 10 2 false true "/question/10")
        sample_world = (Normal tt, w')
      ∧ findById 10%N (Questions (db w')) = Some q'
      ∧ Question.downvotes q' = []
      ∧ Question.upvotes q' = [2%N]
      ∧ reputation_of 2%N (Users (db w')) = Some 52
      ∧ reputation_of 1%N (Users (db w')) = Some 110.
Proof.
  split; [reflexivity|].
  destruct (upvote_switches_from_downvote sample_world
              (QuestionVoteParams.mk 10 2 false true "/question/10")
              sample_question eq_refl eq_refl eq_refl)
    as (w' & q' & Hrun & Hq' & Hd & Hu & _ & _ & HU & _).
  exists w', q'. repeat split; try done.
  - by rewrite HU.
  - by rewrite HU.
Defined.

(** C10: a vote on an identifier that resolves to no question throws
    "Question not found" to the caller; the store is the one before the
    call (no reputation, no vote array changed) and no path is invalidated;
    only the console got the error. *)
Theorem vote_on_absent_question w params :
  findById (QuestionVoteParams.questionId params) (Questions (db w)) = None →
  ∀ vote, vote = upvoteQuestion ∨ vote = downvoteQuestion →
  ∃ w', vote params w = (Throw (Error "Question not found"), w')
        ∧ db w' = db w
        ∧ revalidated w' = revalidated w
        ∧ console w' = console w ++ [Error "Question not found"].
Proof.
  destruct params as [qid voter up down path]; simpl.
  intros Hq vote [-> | ->]; eexists.
  - split; [by apply upvoteQuestion_absent|]. done.
  - split; [by apply downvoteQuestion_absent|]. done.
Qed.

Lemma vote_on_absent_question_witness :
  findById 11%N (Questions (db sample_world)) = None
  ∧ ∃ w', downvoteQuestion (QuestionVoteParams.mk 11 2 false false "/")
            sample_world = (Throw (Error "Question not found"), w')
          ∧ db w' = sample_db.
Proof.
  split; [reflexivity|].
  destruct (vote_on_absent_question sample_world
              (QuestionVoteParams.mk 11 2 false false "/") eq_refl
              downvoteQuestion (or_intror eq_refl))
    as (w' & Hrun & Hdb & _).
  exists w'. split; [exact Hrun | exact Hdb].
Defined.

(** ** Editing *)

(** C5 (as amended): on an identifier that resolves to no question,
    editQuestion throws "Question not found" inside its own try block, logs
    it and returns normally: the caller sees no error, the store is
    unchanged and no path is invalidated. *)
Theorem editQuestion_absent_is_swallowed w params :
  findById (EditQuestionParams.questionId params) (Questions (db w)) = None →
  editQuestion params w = (Normal tt, logged (Error "Question not found") w).
Proof.
  destruct params as [qid title content path]; simpl. intros Hq.
  unfold editQuestion, logged. run. by rewrite Hq.
Qed.

Lemma editQuestion_absent_is_swallowed_witness :
  findById 11%N (Questions (db sample_world)) = None
  ∧ editQuestion (EditQuestionParams.mk 11 "New title" "New text" "/")
      sample_world
    = (Normal tt, mkWorld sample_db 50 2000 [Error "Question not found"] []).
Proof.
  split; [reflexivity|].
  exact (editQuestion_absent_is_swallowed sample_world
           (EditQuestionParams.mk 11 "New title" "New text" "/") eq_refl).
Defined.

(** C5 as stated fails: no error reaches the caller of editQuestion, while
    the same identifier makes a vote throw. *)
Lemma editQuestion_absent_counterexample :
  let params := EditQuestionParams.mk 11 "New title" "New text" "/" in
  findById 11%N (Questions (db sample_world)) = None
  ∧ fst (editQuestion params sample_world) = Normal tt
  ∧ fst (editQuestion params sample_world)
    ≠ Throw (Error "Question not found")
  ∧ fst (upvoteQuestion (QuestionVoteParams.mk 11 2 false false "/")
           sample_world)
    = Throw (Error "Question not found").
Proof. vm_compute. repeat split; congruence. Qed.

(** ** Deleting *)

Lemma deleteQuestion_found w qid path q :
  findById qid (Questions (db w)) = Some q →
  deleteQuestion (DeleteQuestionParams.mk qid path) w
  = (Normal tt, deleted qid (Question.author q) path w).
Proof.
  intros Hq.
  unfold deleteQuestion, deleted. run. rewrite Hq. reflexivity.
Qed.

Lemma deleteMany_In {A} (p : A → bool) (l : list A) x :
  In x (deleteMany p l) ↔ In x l ∧ p x = false.
Proof.
  unfold deleteMany. rewrite filter_In, negb_true_iff. tauto.
Qed.

Lemma existsb_eqb_In (v : ObjectId) (a : list ObjectId) :
  List.existsb (N.eqb v) a = true ↔ In v a.
Proof.
  rewrite existsb_exists. split.
  - intros (x & Hx & Heq). apply N.eqb_eq in Heq. by subst.
  - intros Hv. exists v. split; [done|apply N.eqb_refl].
Qed.

Lemma pulled_from_every_tag qid (tags : list Tag.t) t :
  In t (updateMany (λ t, List.existsb (N.eqb qid) (Tag.questions t))
          (pull_question qid) tags) →
  ¬ In qid (Tag.questions t).
Proof.
  unfold updateMany. rewrite in_map_iff. intros (t0 & <- & _).
  destruct (List.existsb (N.eqb qid) (Tag.questions t0)) eqn:Hex.
  - apply pull_not_In.
  - rewrite <- existsb_eqb_In. by rewrite Hex.
Qed.

Lemma pull_absent v a : ¬ In v a → pull v a = a.
Proof.
  unfold pull. induction a as [|x a IH]; simpl; [done|].
  intros Hv. destruct (N.eqb x v) eqn:E; simpl.
  - apply N.eqb_eq in E. subst. tauto.
  - rewrite IH; tauto.
Qed.

(** The update of the tags that list a question is the pull of the
    question from every tag: a tag that does not list it is not changed by
    the pull. *)
Lemma pull_question_all qid (tags : list Tag.t) :
  updateMany (λ t, List.existsb (N.eqb qid) (Tag.questions t))
    (pull_question qid) tags
  = List.map (pull_question qid) tags.
Proof.
  unfold updateMany. apply map_ext. intros t.
  destruct (List.existsb (N.eqb qid) (Tag.questions t)) eqn:E; [done|].
  destruct t as [i n qs]. unfold pull_question. simpl in *. f_equal.
  symmetry. apply pull_absent. rewrite <- existsb_eqb_In. by rewrite E.
Qed.

(** C6: deleteQuestion on an existing question completes; the question is
    gone and the other questions stay; the answers and the interactions
    left are exactly those of other questions; every tag is still there, at
    its place and under its identifier and name, with the question pulled
    out of its question list and its other references kept in their order,
    so that no tag lists the question any more; the author's reputation is
    5 lower and nobody else's moved. *)
Theorem deleteQuestion_cascade w params q :
  findById (DeleteQuestionParams.questionId params) (Questions (db w))
  = Some q →
  unique_ids (Questions (db w)) →
  let qid := DeleteQuestionParams.questionId params in
  ∃ w',
    deleteQuestion params w = (Normal tt, w')
    ∧ findById qid (Questions (db w')) = None
    ∧ (∀ id, id ≠ qid →
         findById id (Questions (db w')) = findById id (Questions (db w)))
    ∧ (∀ a, In a (Answers (db w'))
            ↔ In a (Answers (db w)) ∧ Answer.question a ≠ qid)
    ∧ (∀ i, In i (Interactions (db w'))
            ↔ In i (Interactions (db w)) ∧ Interaction.question i ≠ qid)
    ∧ (∀ t, In t (Tags (db w')) → ¬ In qid (Tag.questions t))
    ∧ Tags (db w')
      = List.map
          (λ t, Tag.mk (Tag._id t) (Tag.name t) (pull qid (Tag.questions t)))
          (Tags (db w))
    ∧ reputation_of (Question.author q) (Users (db w'))
      = (λ r, r - 5) <$> reputation_of (Question.author q) (Users (db w))
    ∧ (∀ u, u ≠ Question.author q →
         reputation_of u (Users (db w')) = reputation_of u (Users (db w))).
Proof.
  destruct params as [qid path]; simpl. intros Hq Huniq.
  eexists. split; [by apply deleteQuestion_found|]. simpl.
  split; [by apply deleteOne_gone|].
  split; [intros id Hid; by apply deleteOne_other|].
  split; [intros a; rewrite deleteMany_In, N.eqb_neq; tauto|].
  split; [intros i; rewrite deleteMany_In, N.eqb_neq; tauto|].
  split; [apply pulled_from_every_tag|].
  split; [apply pull_question_all|].
  split.
  - rewrite reputation_of_inc, decide_True by done.
    by destruct (reputation_of _ _).
  - intros u Hu. by rewrite reputation_of_inc, decide_False.
Qed.

Lemma deleteQuestion_cascade_witness :
  (findById 10%N (Questions (db listing_world))
   = Some (Question.mk 10 "Borrowing twice" "Why is it rejected" 1 [20%N] []
             [] 5 [40%N] 1)
   ∧ unique_ids (Questions (db listing_world)))
  ∧ ∃ w', deleteQuestion (DeleteQuestionParams.mk 10 "/") listing_world
          = (Normal tt, w')
        ∧ findById 10%N (Questions (db w')) = None
        ∧ Tags (db w') = [Tag.mk 20 "rust" [11%N]]
        ∧ reputation_of 1%N (Users (db w')) = Some 95.
Proof.
  assert (Hu : unique_ids (Questions (db listing_world))).
  { unfold unique_ids. apply (bool_decide_unpack _). vm_compute. exact I. }
  split; [split; [reflexivity | exact Hu]|].
  destruct (deleteQuestion_cascade listing_world
              (DeleteQuestionParams.mk 10 "/") _ eq_refl Hu)
    as (w' & Hrun & Hgone & _ & _ & _ & _ & Htags & Hrep & _).
  exists w'. split; [exact Hrun|]. split; [exact Hgone|].
  split; [exact Htags | exact Hrep].
Defined.

(** ** Listing *)

Section ListingFacts.
Context `{RegExpEngine}.

Lemma apply_limit_length {A} (n : Z) (l : list A) :
  1 ≤ n → Z.of_nat (length (apply_limit n l)) ≤ n.
Proof.
  intros Hn. unfold apply_limit.
  destruct (n =? 0) eqn:H0; [lia|].
  rewrite length_take. lia.
Qed.

(** What getQuestions returns, when it returns. *)
Lemma getQuestions_returns w searchQuery filter page pageSize qs isNext w' :
  getQuestions (GetQuestionsParams.mk searchQuery filter page pageSize) w
  = (Normal (qs, isNext), w') →
  let skipAmount := (default 1 page - 1) * default 10 pageSize in
  let selected :=
    List.filter (listed searchQuery filter) (Questions (db w)) in
  w' = w
  ∧ 0 ≤ skipAmount
  ∧ qs = List.map (populate_question (db w))
           (apply_limit (default 10 pageSize)
              (drop (Z.to_nat skipAmount)
                 (apply_sort (sort_of filter) selected)))
  ∧ isNext
    = (skipAmount + Z.of_nat (length qs) <? Z.of_nat (length selected)).
Proof.
  unfold getQuestions, sort_of. open_store. unfold countDocuments, find.
  open_monad. simpl.
  destruct (truthy searchQuery) as [s|] eqn:Ht; simpl;
    [destruct (RegExp_i s) as [re|] eqn:Hre; simpl; [|done]|];
    repeat case_decide; try congruence; simpl;
    (destruct (_ <? 0) eqn:Hs; simpl; [done|]);
    match goal with
    | |- context [List.filter (matches ?Q) ?l] =>
        assert (List.filter (matches Q) l
                = List.filter (listed searchQuery filter) l) as ->
    end;
    try (apply filter_ext; intros q; unfold matches, listed, search_matches;
         rewrite Ht, ?Hre; simpl; repeat case_decide; try congruence;
         rewrite ?orb_false_r, ?andb_true_r; done);
    intros [= <- <- <-]; repeat split; lia.
Qed.

(** getQuestions returns whenever the page is a positive one and the
    search text, if any, is a pattern the engine accepts. *)
Lemma getQuestions_total w searchQuery filter page pageSize :
  0 ≤ (default 1 page - 1) * default 10 pageSize →
  (∀ s, truthy searchQuery = Some s → is_Some (RegExp_i s)) →
  ∃ r, getQuestions (GetQuestionsParams.mk searchQuery filter page pageSize)
         w = (Normal r, w).
Proof.
  intros Hskip Hre.
  unfold getQuestions. run.
  destruct (truthy searchQuery) as [s|] eqn:Ht; simpl;
    [destruct (Hre s eq_refl) as [re ->]; simpl|];
    repeat case_decide; simpl;
    (destruct (_ <? 0) eqn:Hs; [lia|]); simpl; by eexists.
Qed.

(** What getRecommendedQuestions returns, when it returns. *)
Lemma getRecommendedQuestions_returns w userId page pageSize searchQuery
    qs isNext w' :
  getRecommendedQuestions
    (RecommendedParams.mk userId page pageSize searchQuery) w
  = (Normal (qs, isNext), w') →
  ∃ user,
    snd <$> findOne (λ u, String.eqb (User.clerkId u) userId) (Users (db w))
    = Some user
    ∧ let skipAmount := (default 1 page - 1) * default 10 pageSize in
      let selected :=
        List.filter
          (recommended (db w) (distinctUserTagIds (db w) (User._id user))
             (User._id user) searchQuery)
          (Questions (db w)) in
      w' = w
      ∧ 0 ≤ skipAmount
      ∧ qs = List.map (populate_question (db w))
               (apply_limit (default 10 pageSize)
                  (drop (Z.to_nat skipAmount) selected))
      ∧ isNext
        = (skipAmount + Z.of_nat (length qs) <? Z.of_nat (length selected)).
Proof.
  unfold getRecommendedQuestions. open_store. unfold countDocuments.
  open_monad. simpl.
  destruct (findOne _ (Users (db w))) as [[i user]|]; simpl; [|done].
  fold (distinctUserTagIds (db w) (User._id user)).
  intros Hrun. exists user. split; [done|]. revert Hrun.
  destruct (truthy searchQuery) as [s|] eqn:Ht; simpl;
    [destruct (RegExp_i s) as [re|] eqn:Hre; simpl; [|done]|];
    (destruct (_ <? 0) eqn:Hs; simpl; [done|]);
    unfold find;
    match goal with
    | |- context [List.filter (matches ?Q) ?l] =>
        assert (List.filter (matches Q) l
                = List.filter
                    (recommended (db w)
                       (distinctUserTagIds (db w) (User._id user))
                       (User._id user) searchQuery) l) as ->
    end;
    try (apply filter_ext; intros q;
         unfold matches, recommended, search_matches;
         rewrite Ht, ?Hre; simpl;
         rewrite ?orb_false_r, ?andb_true_r; done);
    intros [= <- <- <-]; repeat split; lia.
Qed.

End ListingFacts.

Section PagingClaims.
Context `{RegExpEngine}.

Lemma In_take {A} (x : A) n l : In x (take n l) → In x l.
Proof.
  revert l. induction n as [|n IH]; intros [|y l]; simpl; try tauto.
  intros [->|Hx]; auto.
Qed.

Lemma In_drop {A} (x : A) n l : In x (drop n l) → In x l.
Proof.
  revert l. induction n as [|n IH]; intros [|y l]; simpl; try tauto.
  intros Hx. auto.
Qed.

Lemma In_apply_limit {A} (x : A) n l : In x (apply_limit n l) → In x l.
Proof. unfold apply_limit. case_match; [done|apply In_take]. Qed.

Lemma populated_docs d (l : list Question.t) :
  List.map pq_doc (List.map (populate_question d) l) = l.
Proof. induction l as [|q l IH]; simpl; by rewrite ?IH. Qed.

(** getRecommendedQuestions returns whenever the user is known, the page
    is a positive one and the search text, if any, is an accepted
    pattern. *)
Lemma getRecommendedQuestions_total w userId page pageSize searchQuery :
  is_Some (findOne (λ u, String.eqb (User.clerkId u) userId) (Users (db w))) →
  0 ≤ (default 1 page - 1) * default 10 pageSize →
  (∀ s, truthy searchQuery = Some s → is_Some (RegExp_i s)) →
  ∃ r, getRecommendedQuestions
         (RecommendedParams.mk userId page pageSize searchQuery) w
       = (Normal r, w).
Proof.
  intros [[i user] Hu] Hskip Hre.
  unfold getRecommendedQuestions. run. rewrite Hu. simpl.
  destruct (truthy searchQuery) as [s|] eqn:Ht; simpl;
    [destruct (Hre s eq_refl) as [re ->]; simpl|];
    (destruct (_ <? 0) eqn:Hs; [lia|]); simpl; by eexists.
Qed.

(** C7: for a page and a page size of at least 1, what getQuestions and
    getRecommendedQuestions return holds at most pageSize questions, and
    isNext is true exactly when the questions the request selects are more
    than (page-1)×pageSize plus the number returned; both return when the
    search text is an accepted pattern (and the user is known). *)
Theorem page_bound_and_isNext w (page pageSize : option Z) :
  1 ≤ default 1 page →
  1 ≤ default 10 pageSize →
  let offset := (default 1 page - 1) * default 10 pageSize in
  (∀ searchQuery filter,
     let params := GetQuestionsParams.mk searchQuery filter page pageSize in
     let total :=
       Z.of_nat (length (List.filter (listed searchQuery filter)
                           (Questions (db w)))) in
     ((∀ s, truthy searchQuery = Some s → is_Some (RegExp_i s)) →
      ∃ r, getQuestions params w = (Normal r, w))
     ∧ ∀ qs isNext w',
         getQuestions params w = (Normal (qs, isNext), w') →
         Z.of_nat (length qs) ≤ default 10 pageSize
         ∧ (isNext = true ↔ total > offset + Z.of_nat (length qs)))
  ∧ (∀ userId searchQuery,
       let params :=
         RecommendedParams.mk userId page pageSize searchQuery in
       (is_Some (findOne (λ u, String.eqb (User.clerkId u) userId)
                   (Users (db w))) →
        (∀ s, truthy searchQuery = Some s → is_Some (RegExp_i s)) →
        ∃ r, getRecommendedQuestions params w = (Normal r, w))
       ∧ ∀ qs isNext w',
           getRecommendedQuestions params w = (Normal (qs, isNext), w') →
           ∃ user,
             snd <$> findOne (λ u, String.eqb (User.clerkId u) userId)
                       (Users (db w)) = Some user
             ∧ let total :=
                 Z.of_nat
                   (length
                      (List.filter
                         (recommended (db w)
                            (distinctUserTagIds (db w) (User._id user))
                            (User._id user) searchQuery)
                         (Questions (db w)))) in
               Z.of_nat (length qs) ≤ default 10 pageSize
               ∧ (isNext = true ↔ total > offset + Z.of_nat (length qs))).
Proof.
  intros Hpage Hsize offset. split.
  - intros searchQuery filter params total. split.
    + intros Hre. apply getQuestions_total; [nia|done].
    + intros qs isNext w' Hrun.
      apply getQuestions_returns in Hrun as (_ & _ & Hqs & HisNext).
      split.
      * rewrite Hqs, length_map. by apply apply_limit_length.
      * rewrite HisNext, Z.ltb_lt. subst total offset. lia.
  - intros userId searchQuery params. split.
    + intros Hu Hre. apply getRecommendedQuestions_total; [done|nia|done].
    + intros qs isNext w' Hrun.
      apply getRecommendedQuestions_returns in Hrun
        as (user & Hu & _ & _ & Hqs & HisNext).
      exists user. split; [done|]. split.
      * rewrite Hqs, length_map. by apply apply_limit_length.
      * rewrite HisNext, Z.ltb_lt. subst offset. lia.
Qed.
End PagingClaims.

Lemma findOne_Some {A} (p : A → bool) (l : list A) i d :
  findOne p l = Some (i, d) →
  l !! i = Some d ∧ p d = true
  ∧ ∀ j d', (j < i)%nat → l !! j = Some d' → p d' = false.
Proof.
  revert i. induction l as [|x r IH]; intros i; simpl; [done|].
  destruct (p x) eqn:Hx.
  - intros [= <- <-]. repeat split; [done|]. intros j d' Hj. lia.
  - destruct (findOne p r) as [[i' d0]|]; [|done].
    intros [= <- <-]. destruct (IH i' eq_refl) as (Hl & Hp & Hbefore).
    repeat split; [done..|].
    intros [|j] d' Hj; simpl; [by intros [= <-]|].
    apply Hbefore. lia.
Qed.

Lemma findOne_In {A} (p : A → bool) (l : list A) i d :
  findOne p l = Some (i, d) → In d l ∧ p d = true.
Proof.
  intros (Hl & Hp & _)%findOne_Some. split; [|done].
  apply list_elem_of_In. by eapply list_elem_of_lookup_2.
Qed.

Lemma In_distinct x l : In x (distinct l) ↔ In x l.
Proof.
  induction l as [|y l IH]; simpl; [done|].
  rewrite filter_In, IH, negb_true_iff, N.eqb_neq.
  destruct (decide (y = x)); [subst; tauto|]. split; [tauto|].
  intros [?|?]; [tauto|]. right. split; [done|congruence].
Qed.

Lemma In_fold_left_app {A} (x : A) (ls : list (list A)) acc :
  In x (fold_left (λ a b, a ++ b) ls acc)
  ↔ In x acc ∨ ∃ l, In l ls ∧ In x l.
Proof.
  revert acc. induction ls as [|l ls IH]; intros acc; simpl.
  - split; [auto|]. intros [?|(l & [] & _)]. done.
  - rewrite IH, in_app_iff. split.
    + intros [[?|?]|(l' & ? & ?)]; eauto.
    + intros [?|(l' & [<-|?] & ?)]; eauto.
Qed.

Lemma populate_tags_In d ids t :
  In t (populate_tags d ids) →
  In (Tag._id t) ids ∧ findById (Tag._id t) (Tags d) = Some t.
Proof.
  unfold populate_tags. rewrite <- list_elem_of_In, list_elem_of_omap.
  intros (id & Hid & Hfind). apply list_elem_of_In in Hid.
  destruct (findById_In _ _ _ Hfind) as [_ Heq].
  unfold doc_id, tag_document in Heq. by subst.
Qed.

(** The identifiers a recommendation looks for are tags of the user's
    interactions, and tags that exist. *)
Lemma distinctUserTagIds_history d user t :
  In t (distinctUserTagIds d user) →
  In t (history_tags d user) ∧ is_Some (findById t (Tags d)).
Proof.
  unfold distinctUserTagIds, history_tags.
  rewrite In_distinct, in_map_iff. intros (tag & <- & Htag).
  apply In_fold_left_app in Htag as [[]|(l & Hl & Htag)].
  apply in_map_iff in Hl as (i & <- & Hi).
  apply populate_tags_In in Htag as [Hin Hfind].
  split; [|by eexists].
  apply in_flat_map. eauto.
Qed.

Section SelectionClaims.
Context `{RegExpEngine}.

(** C8: whatever the search text, a question that
    getRecommendedQuestions returns is a question of the store that the
    requesting user did not write and that carries a tag of the distinct
    tag set of the user's interaction history. *)
Theorem recommended_excludes_own_and_shares_tag w params qs isNext w' :
  getRecommendedQuestions params w = (Normal (qs, isNext), w') →
  ∃ user,
    In user (Users (db w))
    ∧ User.clerkId user = RecommendedParams.userId params
    ∧ ∀ pq, In pq qs →
        In (pq_doc pq) (Questions (db w))
        ∧ Question.author (pq_doc pq) ≠ User._id user
        ∧ ∃ t, In t (Question.tags (pq_doc pq))
               ∧ In t (distinctUserTagIds (db w) (User._id user))
               ∧ In t (history_tags (db w) (User._id user)).
Proof.
  destruct params as [userId page pageSize searchQuery]; simpl.
  intros (user & Hu & _ & _ & Hqs & _)%getRecommendedQuestions_returns.
  exists user.
  destruct (findOne _ (Users (db w))) as [[i u]|] eqn:Hfind; [|done].
  simpl in Hu. injection Hu as ->.
  apply findOne_In in Hfind as [Hin Hclerk].
  split; [done|]. split; [by apply String.eqb_eq|].
  intros pq Hpq. rewrite Hqs in Hpq.
  apply in_map_iff in Hpq as (q & <- & Hq). simpl.
  apply In_apply_limit, In_drop, filter_In in Hq as [Hq Hsel].
  unfold recommended in Hsel.
  apply andb_prop in Hsel as [Hsel _].
  apply andb_prop in Hsel as [Htags Hauthor].
  split; [done|]. split.
  { apply negb_true_iff, N.eqb_neq in Hauthor. done. }
  apply existsb_exists in Htags as (t & Ht & Hids).
  apply existsb_exists in Hids as (t' & Ht' & Heq).
  apply N.eqb_eq in Heq as <-.
  exists t. split; [done|]. split; [done|].
  by apply distinctUserTagIds_history.
Qed.

(** C9: with a filter value other than newest, frequent and unanswered,
    getQuestions does what it does with no filter at all, and the
    questions it returns are, in the order of the store, those the search
    text selects (all of them without a search text), cut to the page. *)
Theorem unknown_filter_keeps_natural_order w searchQuery filter page
    pageSize :
  filter ≠ Some "newest" →
  filter ≠ Some "frequent" →
  filter ≠ Some "unanswered" →
  let params := GetQuestionsParams.mk searchQuery filter page pageSize in
  let offset := (default 1 page - 1) * default 10 pageSize in
  getQuestions params w
  = getQuestions (GetQuestionsParams.mk searchQuery None page pageSize) w
  ∧ (0 ≤ offset →
     (∀ s, truthy searchQuery = Some s → is_Some (RegExp_i s)) →
     ∃ r, getQuestions params w = (Normal r, w))
  ∧ ∀ qs isNext w',
      getQuestions params w = (Normal (qs, isNext), w') →
      List.map pq_doc qs
      = apply_limit (default 10 pageSize)
          (drop (Z.to_nat offset)
             (List.filter (search_matches searchQuery)
                (Questions (db w)))).
Proof.
  intros Hn Hf Hu params offset. split; [|split].
  - unfold params, getQuestions. run.
    destruct (truthy searchQuery) as [s|]; simpl;
      [destruct (RegExp_i s) as [re|]; simpl; [|done]|];
      repeat case_decide; try congruence; done.
  - intros Hoff Hre. by apply getQuestions_total.
  - intros qs isNext w' (_ & _ & -> & _)%getQuestions_returns.
    rewrite populated_docs. unfold sort_of.
    rewrite !decide_False by done. simpl. do 2 f_equal.
    apply filter_ext. intros q. unfold listed.
    rewrite decide_False by done. apply andb_true_r.
Qed.
End SelectionClaims.

Lemma page_bound_and_isNext_witness :
  (1 ≤ default 1 (Some 1) ∧ 1 ≤ default 10 (Some 1))
  ∧ ∃ qs isNext,
      @getQuestions literal_engine
        (GetQuestionsParams.mk None None (Some 1) (Some 1)) sample_world
      = (Normal (qs, isNext), sample_world)
      ∧ Z.of_nat (length qs) ≤ 1
      ∧ (isNext = true ↔ 1 > 0 + Z.of_nat (length qs)).
Proof.
  assert (H1 : 1 ≤ default 1 (Some 1)) by (simpl; lia).
  split; [split; exact H1|].
  destruct (@page_bound_and_isNext literal_engine sample_world
              (Some 1) (Some 1) H1 H1) as [Hlist _].
  destruct (Hlist None None) as [Htotal Hbound].
  destruct Htotal as [[qs isNext] Hrun]; [intros s [=]|].
  exists qs, isNext. split; [exact Hrun|].
  exact (Hbound qs isNext sample_world Hrun).
Defined.

Lemma recommended_excludes_own_and_shares_tag_witness :
  @getRecommendedQuestions literal_engine
    (RecommendedParams.mk "clerk_bob" None None (Some "borrow")) sample_world
  = (Normal ([populate_question sample_db sample_question], false),
     sample_world)
  ∧ ∃ user,
      In user (Users (db sample_world))
      ∧ User.clerkId user = "clerk_bob"
      ∧ ∀ pq, In pq [populate_question sample_db sample_question] →
          In (pq_doc pq) (Questions (db sample_world))
          ∧ Question.author (pq_doc pq) ≠ User._id user
          ∧ ∃ t, In t (Question.tags (pq_doc pq))
                 ∧ In t (distinctUserTagIds (db sample_world) (User._id user))
                 ∧ In t (history_tags (db sample_world) (User._id user)).
Proof.
  assert (Hrun :
    @getRecommendedQuestions literal_engine
      (RecommendedParams.mk "clerk_bob" None None (Some "borrow"))
      sample_world
    = (Normal ([populate_question sample_db sample_question], false),
       sample_world)) by (vm_compute; reflexivity).
  split; [exact Hrun|].
  exact (@recommended_excludes_own_and_shares_tag literal_engine _ _ _ _ _
           Hrun).
Defined.

Lemma unknown_filter_keeps_natural_order_witness :
  (Some "oldest" ≠ Some "newest"
   ∧ Some "oldest" ≠ Some "frequent"
   ∧ Some "oldest" ≠ Some "unanswered")
  ∧ @getQuestions literal_engine
      (GetQuestionsParams.mk None (Some "oldest") None None) sample_world
    = @getQuestions literal_engine
        (GetQuestionsParams.mk None None None None) sample_world.
Proof.
  assert (H1 : Some "oldest" ≠ Some "newest") by discriminate.
  assert (H2 : Some "oldest" ≠ Some "frequent") by discriminate.
  assert (H3 : Some "oldest" ≠ Some "unanswered") by discriminate.
  split; [repeat split; assumption|].
  exact (proj1 (@unknown_filter_keeps_natural_order literal_engine
                  sample_world None (Some "oldest") None None H1 H2 H3)).
Defined.

(** ** Tags of a new question *)

Lemma occurrences_app v a b :
  occurrences v (a ++ b) = (occurrences v a + occurrences v b)%nat.
Proof. unfold occurrences. by rewrite List.filter_app, length_app. Qed.

Lemma occurrences_In v a : In v a → (1 ≤ occurrences v a)%nat.
Proof.
  unfold occurrences. induction a as [|x a IH]; simpl; [done|].
  intros [->|Hv].
  - rewrite N.eqb_refl. simpl. lia.
  - destruct (N.eqb v x); simpl; auto with lia.
Qed.

Lemma extends_refl l : extends l l.
Proof. unfold extends. done. Qed.

Lemma extends_trans l1 l2 l3 : extends l1 l2 → extends l2 l3 → extends l1 l3.
Proof. unfold extends. by etrans. Qed.

Lemma extends_app l k : extends l (l ++ k).
Proof. unfold extends. rewrite map_app. by apply prefix_app_r. Qed.

Lemma extends_insert l i t t' :
  l !! i = Some t → tag_key t' = tag_key t → extends l (<[i:=t']> l).
Proof.
  intros Hi Hkey. unfold extends.
  change (List.map tag_key) with (fmap (M:=list) tag_key).
  rewrite list_fmap_insert, Hkey, list_insert_id; [done|].
  by rewrite list_lookup_fmap, Hi.
Qed.

Lemma extends_cons x l l' :
  extends (x :: l) l' →
  ∃ x' r', l' = x' :: r' ∧ tag_key x' = tag_key x ∧ extends l r'.
Proof.
  unfold extends. intros [k Hk]. destruct l' as [|x' r']; [done|].
  simpl in Hk. injection Hk as Hid Hname Hr.
  exists x', r'. split; [done|].
  split; [unfold tag_key; congruence|]. by exists k.
Qed.

(** A first match by name stays the first match, under its identifier. *)
Lemma findOne_extends (p : string → bool) l l' i t :
  extends l l' →
  findOne (λ t, p (Tag.name t)) l = Some (i, t) →
  ∃ t', findOne (λ t, p (Tag.name t)) l' = Some (i, t')
        ∧ Tag._id t' = Tag._id t.
Proof.
  revert l' i. induction l as [|x l IH]; intros l' i Hext; simpl; [done|].
  apply extends_cons in Hext as (x' & r' & -> & Hkey & Hext).
  injection Hkey as Hid Hname. simpl. rewrite Hname.
  destruct (p (Tag.name x)).
  - intros [= <- <-]. by exists x'.
  - destruct (findOne _ l) as [[j t0]|] eqn:Hfind; [|done].
    intros [= <- <-].
    destruct (IH r' j Hext eq_refl) as (t' & -> & Ht'). by exists t'.
Qed.

Lemma findById_extends x l l' :
  extends l l' →
  is_Some (findById x l) → is_Some (findById x l').
Proof.
  revert l'. induction l as [|y l IH]; intros l' Hext; simpl.
  { by intros [? ?]. }
  apply extends_cons in Hext as (y' & r' & -> & Hkey & Hext).
  injection Hkey as Hid Hname. simpl.
  unfold doc_id, tag_document. rewrite Hid.
  case_decide; [by eexists|]. by apply IH.
Qed.

Lemma findOne_ext {A} (p p' : A → bool) (l : list A) :
  (∀ x, p x = p' x) → findOne p l = findOne p' l.
Proof.
  intros Hp. induction l as [|x l IH]; simpl; [done|].
  by rewrite Hp, IH.
Qed.

(** A match appended behind a collection without one is the first match. *)
Lemma findOne_app_new {A} (p : A → bool) (l : list A) x :
  findOne p l = None → p x = true →
  findOne p (l ++ [x]) = Some (length l, x).
Proof.
  induction l as [|y l IH]; simpl.
  - intros _ ->. done.
  - destruct (p y); [done|].
    destruct (findOne p l) as [[i d]|]; [done|].
    intros _ Hx. by rewrite IH.
Qed.

Lemma findOne_insert {A} (p : A → bool) (l : list A) i x x' :
  findOne p l = Some (i, x) → p x' = true →
  findOne p (<[i:=x']> l) = Some (i, x').
Proof.
  revert i. induction l as [|y l IH]; intros i; simpl; [done|].
  destruct (p y) eqn:Hy.
  - intros [= <- <-] Hx'. simpl. by rewrite Hx'.
  - destruct (findOne p l) as [[j d]|] eqn:Hfind; [|done].
    intros [= <- <-] Hx'. simpl. rewrite Hy. by rewrite (IH j).
Qed.

Lemma findById_insert {A} `{Document A} x (l : list A) i d d' :
  unique_ids l → l !! i = Some d → doc_id d' = doc_id d →
  findById x (<[i:=d']> l)
  = if decide (x = doc_id d) then Some d' else findById x l.
Proof.
  unfold unique_ids. revert i.
  induction l as [|y l IH]; intros i Hnd; simpl; [done|].
  apply NoDup_cons in Hnd as [Hy Hnd].
  destruct i as [|i]; simpl.
  - intros [= ->] Hid. rewrite Hid.
    destruct (decide (doc_id d = x)); [by rewrite decide_True|].
    by rewrite decide_False.
  - intros Hi Hid.
    assert (doc_id y ≠ doc_id d) as Hne.
    { intros Heq. apply Hy. rewrite Heq.
      apply list_elem_of_In, in_map, list_elem_of_In.
      by eapply list_elem_of_lookup_2. }
    destruct (decide (doc_id y = x)) as [<-|Hyx].
    + by rewrite decide_False.
    + by apply IH.
Qed.

Lemma findById_app_new {A} `{Document A} x (l : list A) d :
  findById x (l ++ [d])
  = match findById x l with
    | Some d0 => Some d0
    | None => if decide (doc_id d = x) then Some d else None
    end.
Proof.
  induction l as [|y l IH]; simpl; [done|].
  by destruct (decide (doc_id y = x)).
Qed.

Lemma lookup_In {A} (l : list A) i x : l !! i = Some x → In x l.
Proof.
  intros Hi. apply list_elem_of_In. by eapply list_elem_of_lookup_2.
Qed.

Lemma In_insert {A} (l : list A) i x y :
  In y (<[i:=x]> l) → y = x ∨ In y l.
Proof.
  revert i. induction l as [|z l IH]; intros [|i]; simpl; try tauto.
  - intros [<-|?]; auto.
  - intros [<-|Hy]; auto. destruct (IH i Hy); auto.
Qed.

Lemma ids_insert {A} `{Document A} (l : list A) i d d' :
  l !! i = Some d → doc_id d' = doc_id d →
  List.map doc_id (<[i:=d']> l) = List.map doc_id l.
Proof.
  intros Hi Hid.
  change (List.map doc_id) with (fmap (M:=list) doc_id).
  rewrite list_fmap_insert, Hid, list_insert_id; [done|].
  by rewrite list_lookup_fmap, Hi.
Qed.

Lemma findById_lookup {A} `{Document A} (l : list A) i d :
  unique_ids l → l !! i = Some d → findById (doc_id d) l = Some d.
Proof.
  intros Hu Hi.
  pose proof (findById_insert (doc_id d) l i d d Hu Hi eq_refl) as Hf.
  rewrite list_insert_id, decide_True in Hf by done. done.
Qed.

Lemma fresh_id_absent (l : list Tag.t) (n : ObjectId) :
  (∀ t, In t l → (Tag._id t < n)%N) → findById n l = None.
Proof.
  intros Hlt. apply findById_None. rewrite in_map_iff.
  intros (t & Hid & Ht). apply Hlt in Ht.
  unfold doc_id, tag_document in Hid. lia.
Qed.

Section TagResolution.
Context `{RegExpEngine}.

(** One turn of the loop over the tag names. *)
Lemma Tag_findOneAndUpdate_step tag qid re w :
  RegExp_i (exactly tag) = Some re →
  tags_wf w →
  ∃ t' l' n',
    Tag_findOneAndUpdate tag qid w = (Normal t', with_Tags l' n' w)
    ∧ tags_wf (with_Tags l' n' w)
    ∧ extends (Tags (db w)) l'
    ∧ (∀ x, refs qid x l'
            = (refs qid x (Tags (db w))
               + (if decide (x = Tag._id t') then 1 else 0))%nat)
    ∧ (∀ i t, findOne (λ t, re (Tag.name t)) (Tags (db w)) = Some (i, t) →
              Tag._id t' = Tag._id t)
    ∧ (re tag = true →
       ∃ i, findOne (λ t, re (Tag.name t)) l' = Some (i, t'))
    ∧ findById (Tag._id t') l' = Some t'.
Proof.
  intros Hre [Huniq Hfresh].
  unfold Tag_findOneAndUpdate, new_RegExp_i. fold (exactly tag).
  rewrite Hre.
  unfold put_db, get_db, new_ObjectId, mbind, mret, action_bind, action_ret.
  simpl.
  destruct (findOne _ (Tags (db w))) as [[i t]|] eqn:Hfind; simpl.
  - destruct (findOne_Some _ _ _ _ Hfind) as (Hi & Hp & _).
    exists (push_question qid t), (<[i:=push_question qid t]> (Tags (db w))),
      (next_oid w).
    split; [done|]. split.
    { split; simpl.
      - unfold unique_ids. by erewrite ids_insert.
      - intros t0 Ht0.
        destruct (In_insert _ _ _ _ Ht0) as [->|Ht1]; [|by apply Hfresh].
        simpl. apply Hfresh. by eapply lookup_In. }
    split; [by eapply extends_insert|].
    split.
    { intros x. unfold refs.
      rewrite (findById_insert x _ i t) by done.
      unfold doc_id, tag_document. simpl.
      destruct (decide (x = Tag._id t)) as [->|Hx].
      - pose proof (findById_lookup _ _ _ Huniq Hi) as Ht.
        unfold doc_id, tag_document in Ht. rewrite Ht. simpl.
        unfold push. rewrite occurrences_app.
        unfold occurrences at 2. simpl.
        destruct (N.eqb qid qid) eqn:E; [done|].
        by rewrite N.eqb_refl in E.
      - lia. }
    split; [by intros i0 t0 [= <- <-]|].
    split.
    { intros _. exists i. by apply (findOne_insert _ _ _ t). }
    rewrite (findById_insert _ _ i t) by done.
    by rewrite decide_True.
  - exists (Tag.mk (next_oid w) tag [qid]),
      (Tags (db w) ++ [Tag.mk (next_oid w) tag [qid]]), (N.succ (next_oid w)).
    pose proof (fresh_id_absent _ _ Hfresh) as Habsent.
    split; [done|]. split.
    { split; simpl.
      - unfold unique_ids. rewrite map_app. simpl.
        apply NoDup_app. split; [done|]. split; [|apply NoDup_singleton].
        intros x Hx ->%list_elem_of_singleton.
        apply findById_None in Habsent. apply Habsent.
        by apply list_elem_of_In.
      - intros t0 [Ht0|[<-|[]]]%in_app_iff; [|simpl; lia].
        apply Hfresh in Ht0. lia. }
    split; [apply extends_app|].
    split.
    { intros x. unfold refs. rewrite findById_app_new.
      destruct (decide (x = next_oid w)) as [->|Hx].
      - rewrite Habsent, decide_True by done.
        unfold occurrences. simpl. by rewrite N.eqb_refl, decide_True.
      - simpl. rewrite (decide_False (P := x = next_oid w)) by done.
        destruct (findById x (Tags (db w))); [lia|].
        rewrite decide_False; [done|]. intros Heq. by apply Hx. }
    split; [done|].
    split.
    { intros Hself. eexists. by apply findOne_app_new. }
    rewrite findById_app_new. simpl. rewrite Habsent.
    by rewrite decide_True.
Qed.

Lemma with_Tags_same w : with_Tags (Tags (db w)) (next_oid w) w = w.
Proof. destruct w as [[] ? ? ? ?]. reflexivity. Qed.

Lemma occurrences_cons x y a :
  occurrences x (y :: a)
  = ((if decide (x = y) then 1 else 0) + occurrences x a)%nat.
Proof.
  unfold occurrences. simpl. case_decide.
  - subst. by rewrite N.eqb_refl.
  - apply N.eqb_neq in H0. by rewrite H0.
Qed.

(** The loop over the tag names, when every name gives a pattern the
    engine accepts: it ends with one identifier per name; every tag gained
    one reference to the question per name resolved to it; a name whose
    pattern selects what a pattern with an earlier first match selects
    resolves to that match; of two names with patterns selecting the same
    strings, the first of which selects its own name, the later resolves
    to the tag of the earlier. *)
Lemma resolve_tags_run qid tags : ∀ acc w,
  Forall (λ t, is_Some (RegExp_i (exactly t))) tags →
  tags_wf w →
  ∃ docs l' n',
    resolve_tags qid tags acc w = (Normal (acc ++ docs), with_Tags l' n' w)
    ∧ length docs = length tags
    ∧ tags_wf (with_Tags l' n' w)
    ∧ extends (Tags (db w)) l'
    ∧ (∀ x, refs qid x l'
            = (refs qid x (Tags (db w)) + occurrences x docs)%nat)
    ∧ (∀ k tid, docs !! k = Some tid → is_Some (findById tid l'))
    ∧ (∀ re i t,
         findOne (λ t, re (Tag.name t)) (Tags (db w)) = Some (i, t) →
         ∀ k tag re',
           tags !! k = Some tag → RegExp_i (exactly tag) = Some re' →
           (∀ s, re' s = re s) →
           docs !! k = Some (Tag._id t))
    ∧ (∀ k1 k2 tag1 tag2 re1 re2,
         (k1 < k2)%nat →
         tags !! k1 = Some tag1 → tags !! k2 = Some tag2 →
         RegExp_i (exactly tag1) = Some re1 →
         RegExp_i (exactly tag2) = Some re2 →
         (∀ s, re2 s = re1 s) → re1 tag1 = true →
         ∃ tid, docs !! k1 = Some tid ∧ docs !! k2 = Some tid).
Proof.
  induction tags as [|tag tags IH]; intros acc w Hall Hwf.
  - exists [], (Tags (db w)), (next_oid w).
    rewrite with_Tags_same, app_nil_r. simpl.
    split; [done|]. split; [done|]. split; [done|].
    split; [apply extends_refl|].
    split; [intros x; unfold occurrences; simpl; lia|].
    split; [done|]. split; [done|].
    intros k1 k2 ? ? ? ? ? Hk. done.
  - apply Forall_cons in Hall as [[re Hre] Hall].
    destruct (Tag_findOneAndUpdate_step tag qid re w Hre Hwf)
      as (t' & l1 & n1 & Hstep & Hwf1 & Hext1 & Hrefs1 & Hres1 & Hself1
          & Hfound1).
    destruct (IH (acc ++ [Tag._id t']) (with_Tags l1 n1 w) Hall Hwf1)
      as (docs & l2 & n2 & Hrun & Hlen & Hwf2 & Hext2 & Hrefs2 & Hex2
          & Hres2 & Hpair2).
    exists (Tag._id t' :: docs), l2, n2.
    split.
    { simpl. unfold mbind, action_bind. rewrite Hstep, Hrun.
      by rewrite <- app_assoc. }
    split; [simpl; by rewrite Hlen|].
    split; [done|].
    split; [by eapply extends_trans|].
    split.
    { intros x. rewrite Hrefs2. simpl. rewrite Hrefs1, occurrences_cons.
      lia. }
    split.
    { intros [|k] tid; simpl.
      - intros [= <-]. eapply findById_extends; [exact Hext2|].
        simpl. by eexists.
      - apply Hex2. }
    split.
    { intros re0 i t Hfind [|k] tag0 re' Htag Hre' Hsame; simpl in *.
      - injection Htag as <-. rewrite Hre in Hre'. injection Hre' as <-.
        f_equal. apply (Hres1 i t). rewrite <- Hfind.
        by apply findOne_ext.
      - destruct (findOne_extends re0 _ _ _ _ Hext1 Hfind)
          as (t1 & Hfind1 & <-).
        by eapply (Hres2 re0 i t1 Hfind1 k tag0 re'). }
    intros [|k1] [|k2] tag1 tag2 re1 re2 Hlt Htag1 Htag2 Hre1 Hre2 Hsame
      Hself; simpl in *; try lia.
    + injection Htag1 as <-. rewrite Hre in Hre1. injection Hre1 as <-.
      destruct (Hself1 Hself) as [i Hfind1].
      exists (Tag._id t'). split; [done|].
      by eapply (Hres2 re i t' Hfind1 k2 tag2 re2).
    + apply (Hpair2 k1 k2 tag1 tag2 re1 re2); [lia|done..].
Qed.
End TagResolution.

Lemma occurrences_twice x (docs : list ObjectId) i j :
  (i < j)%nat → docs !! i = Some x → docs !! j = Some x →
  (2 ≤ occurrences x docs)%nat.
Proof.
  revert i j. induction docs as [|y docs IH]; intros i j Hlt; [done|].
  rewrite occurrences_cons.
  destruct i as [|i], j as [|j]; simpl; try lia.
  - intros [= ->] Hj. rewrite decide_True by done.
    apply lookup_In, occurrences_In in Hj. lia.
  - intros Hi Hj. assert (i < j)%nat as Hlt' by lia.
    specialize (IH i j Hlt' Hi Hj). lia.
Qed.

Lemma before_dollar_append t : before_dollar (t +:+ "$") = Some t.
Proof.
  induction t as [|c t IH]; [done|].
  change (String c t +:+ "$") with (String c (t +:+ "$")).
  simpl. rewrite IH. by destruct t.
Qed.

Lemma literal_engine_case_insensitive :
  @case_insensitive_names literal_engine.
Proof.
  intros t1 t2 Hl1 Hl2 Hcase. unfold RegExp_i, literal_engine, exactly.
  change ("^" +:+ t1 +:+ "$") with (String "^" (t1 +:+ "$")).
  change ("^" +:+ t2 +:+ "$") with (String "^" (t2 +:+ "$")).
  cbv beta iota. rewrite !before_dollar_append, Hl1, Hl2.
  eexists _, _. split; [done|]. split; [done|].
  split; [apply String.eqb_refl|].
  intros s. by rewrite Hcase.
Qed.

Section CreateQuestion.
Context `{RegExpEngine}.

Lemma createQuestion_run w title content tags author path docs l' n' :
  resolve_tags (next_oid w) tags [] (asked title content author w)
  = (Normal docs, with_Tags l' n' (asked title content author w)) →
  createQuestion (CreateQuestionParams.mk title content tags author path) w
  = (Normal tt, question_created title content author path docs l' n' w).
Proof.
  intros Hloop.
  unfold createQuestion. run. unfold asked in Hloop. simpl in Hloop.
  rewrite Hloop.
  reflexivity.
Qed.

Lemma asked_tags_wf title content author w :
  tags_wf w → tags_wf (asked title content author w).
Proof.
  intros [Hu Hf]. split; simpl; [done|].
  intros t Ht. apply Hf in Ht. lia.
Qed.

(** C4 (as amended): when the engine accepts the pattern of every name and
    two names of the list, made of letters and digits, differ only in
    letter case, createQuestion completes, both names resolve to one and
    the same tag document, and the question list of that tag gains the new
    question's reference once per name of the list that resolved to it:
    the counts add up, and that makes two references or more, not one. *)
Theorem createQuestion_case_variants w title content tags author path
    i j t1 t2 :
  case_insensitive_names →
  Forall (λ t, is_Some (RegExp_i (exactly t))) tags →
  tags_wf w →
  (i < j)%nat → tags !! i = Some t1 → tags !! j = Some t2 →
  literal t1 = true → literal t2 = true →
  toLowerCase t1 = toLowerCase t2 →
  let qid := next_oid w in
  ∃ w' docs tid tag,
    createQuestion (CreateQuestionParams.mk title content tags author path)
      w = (Normal tt, w')
    ∧ Interaction.tags <$> last (Interactions (db w')) = Some docs
    ∧ Interaction.question <$> last (Interactions (db w')) = Some qid
    ∧ (findById qid (Questions (db w)) = None →
       Question.tags <$> findById qid (Questions (db w')) = Some docs)
    ∧ length docs = length tags
    ∧ docs !! i = Some tid ∧ docs !! j = Some tid
    ∧ findById tid (Tags (db w')) = Some tag
    ∧ occurrences qid (Tag.questions tag)
      = (refs qid tid (Tags (db w)) + occurrences tid docs)%nat
    ∧ (2 ≤ occurrences tid docs)%nat.
Proof.
  intros Hengine Hall Hwf Hlt Hi Hj Hl1 Hl2 Hcase qid.
  destruct (Hengine t1 t2 Hl1 Hl2 Hcase)
    as (re1 & re2 & Hre1 & Hre2 & Hself & Hsame).
  pose proof (asked_tags_wf title content author w Hwf) as Hwf0.
  destruct (resolve_tags_run qid tags [] _ Hall Hwf0)
    as (docs & l' & n' & Hrun & Hlen & _ & _ & Hrefs & Hex & _ & Hpair).
  destruct (Hpair i j t1 t2 re1 re2 Hlt Hi Hj Hre1 Hre2 Hsame Hself)
    as (tid & Hdi & Hdj).
  destruct (Hex i tid Hdi) as [tag Htag].
  exists (question_created title content author path docs l' n' w),
    docs, tid, tag.
  split; [by apply createQuestion_run|]. simpl.
  rewrite last_snoc. simpl.
  split; [done|]. split; [done|].
  split.
  { intros Hfresh.
    rewrite (findById_updateById (A := Question.t)), decide_True by done.
    rewrite findById_app_new, Hfresh. simpl.
    by rewrite decide_True. }
  split; [done|]. split; [done|]. split; [done|]. split; [done|].
  split; [|by eapply occurrences_twice].
  specialize (Hrefs tid). unfold refs in Hrefs at 1.
  rewrite Htag in Hrefs. exact Hrefs.
Qed.
End CreateQuestion.

Lemma createQuestion_case_variants_witness :
  (@case_insensitive_names literal_engine
   ∧ Forall (λ t, is_Some (@RegExp_i literal_engine (exactly t)))
       ["Rust"; "rust"]
   ∧ tags_wf bare_world
   ∧ (0 < 1)%nat
   ∧ ["Rust"; "rust"] !! 0%nat = Some "Rust"
   ∧ ["Rust"; "rust"] !! 1%nat = Some "rust"
   ∧ literal "Rust" = true ∧ literal "rust" = true
   ∧ toLowerCase "Rust" = toLowerCase "rust")
  ∧ ∃ w' docs tid tag,
      @createQuestion literal_engine
        (CreateQuestionParams.mk "Lifetimes" "What does 'a mean"
           ["Rust"; "rust"] 1 "/")
        bare_world = (Normal tt, w')
      ∧ docs !! 0%nat = Some tid ∧ docs !! 1%nat = Some tid
      ∧ findById tid (Tags (db w')) = Some tag
      ∧ occurrences 50 (Tag.questions tag)
        = (refs 50 tid (Tags (db bare_world)) + occurrences tid docs)%nat
      ∧ (2 ≤ occurrences tid docs)%nat.
Proof.
  assert (Hall : Forall (λ t, is_Some (@RegExp_i literal_engine (exactly t)))
                   ["Rust"; "rust"]).
  { repeat constructor; vm_compute; by eexists. }
  assert (Hwf : tags_wf bare_world).
  { split; [apply NoDup_nil_2 | intros t []]. }
  assert (Hlt : (0 < 1)%nat) by lia.
  split.
  { split; [exact literal_engine_case_insensitive|].
    split; [exact Hall|]. split; [exact Hwf|]. split; [exact Hlt|].
    repeat split; reflexivity. }
  destruct (@createQuestion_case_variants literal_engine bare_world
              "Lifetimes" "What does 'a mean" ["Rust"; "rust"] 1%N "/"
              0%nat 1%nat "Rust" "rust" literal_engine_case_insensitive
              Hall Hwf Hlt eq_refl eq_refl eq_refl eq_refl eq_refl)
    as (w' & docs & tid & tag & Hrun & _ & _ & _ & _ & Hi & Hj & Htag & Hocc
        & Htwo).
  exists w', docs, tid, tag. repeat split; assumption.
Defined.

(** C4 as stated fails on its own example: with the names "Rust" and "rust"
    both resolve to the tag 51 that the first name created, and that tag
    lists the new question 50 twice, not once. *)
Lemma createQuestion_case_variants_counterexample :
  let params :=
    CreateQuestionParams.mk "Lifetimes" "What does 'a mean" ["Rust"; "rust"]
      1 "/" in
  let w' := snd (@createQuestion literal_engine params bare_world) in
  fst (@createQuestion literal_engine params bare_world) = Normal tt
  ∧ Tags (db w') = [Tag.mk 51 "Rust" [50%N; 50%N]]
  ∧ Question.tags <$> findById 50%N (Questions (db w')) = Some [51%N; 51%N]
  ∧ refs 50 51 (Tags (db w')) = 2%nat
  ∧ refs 50 51 (Tags (db w')) ≠ 1%nat.
Proof. vm_compute. repeat split; congruence. Qed.

(** ** Sorting *)

Lemma insert_by_Permutation {A} (before : A → A → bool) x (l : list A) :
  Permutation (x :: l) (insert_by before x l).
Proof.
  induction l as [|y r IH]; simpl; [done|].
  destruct (before x y); [done|].
  rewrite perm_swap. by apply perm_skip.
Qed.

Lemma sort_by_Permutation {A} (before : A → A → bool) (l : list A) :
  Permutation l (sort_by before l).
Proof.
  induction l as [|x l IH]; simpl; [done|].
  rewrite <- insert_by_Permutation. by apply perm_skip.
Qed.

(** When [before] decides a total order [R] from both sides, the sort puts
    the documents in that order. *)
Lemma insert_by_Sorted {A} (before : A → A → bool) (R : A → A → Prop) x l :
  (∀ a b, before a b = true → R a b) →
  (∀ a b, before a b = false → R b a) →
  Sorted R l → Sorted R (insert_by before x l).
Proof.
  intros Hyes Hno. induction l as [|y r IH]; intros Hs; simpl.
  - by repeat constructor.
  - destruct (before x y) eqn:Hxy.
    + constructor; [done|]. constructor. by apply Hyes.
    + apply Sorted_inv in Hs as [Hr Hhd].
      constructor; [by apply IH|].
      destruct r as [|z r]; simpl.
      * constructor. by apply Hno.
      * destruct (before x z); constructor; [by apply Hno|].
        by apply HdRel_inv in Hhd.
Qed.

Lemma sort_by_Sorted {A} (before : A → A → bool) (R : A → A → Prop) l :
  (∀ a b, before a b = true → R a b) →
  (∀ a b, before a b = false → R b a) →
  Sorted R (sort_by before l).
Proof.
  intros Hyes Hno. induction l as [|x l IH]; simpl; [constructor|].
  by apply insert_by_Sorted.
Qed.

Lemma sort_desc_sort_by {A} (key : A → Z) (l : list A) :
  sort_desc key l = sort_by (λ x y, key y <=? key x) l.
Proof.
  unfold sort_desc, sort_by. induction l as [|x l IH]; simpl; [done|].
  rewrite IH. generalize (fold_right (insert_by (λ x y, key y <=? key x)) [] l).
  intros s. induction s as [|y s IHs]; simpl; [done|]. by rewrite IHs.
Qed.

(** In a list in descending order, what comes first is not below what comes
    after. *)
Lemma StronglySorted_app_le {A} (R : A → A → Prop) (a b : list A) :
  StronglySorted R (a ++ b) → ∀ x y, In x a → In y b → R x y.
Proof.
  induction a as [|z a IH]; simpl; [done|].
  intros Hs x y [<-|Hx] Hy; apply StronglySorted_inv in Hs as [Hs Hall].
  - rewrite Forall_forall in Hall. apply Hall.
    apply list_elem_of_In, in_or_app. by right.
  - by apply IH.
Qed.

Lemma Sorted_take {A} (R : A → A → Prop) n (l : list A) :
  Sorted R l → Sorted R (take n l).
Proof.
  revert n. induction l as [|x l IH]; intros [|n] Hs; simpl;
    try constructor.
  - apply IH. by apply Sorted_inv in Hs as [? _].
  - apply Sorted_inv in Hs as [_ Hhd].
    destruct l as [|y l], n as [|n]; simpl; constructor.
    by apply HdRel_inv in Hhd.
Qed.

Lemma Sorted_drop {A} (R : A → A → Prop) n (l : list A) :
  Sorted R l → Sorted R (drop n l).
Proof.
  revert l. induction n as [|n IH]; intros [|x l] Hs; simpl; try done.
  apply IH. by apply Sorted_inv in Hs as [? _].
Qed.

Lemma Sorted_apply_limit {A} (R : A → A → Prop) n (l : list A) :
  Sorted R l → Sorted R (apply_limit n l).
Proof. unfold apply_limit. case_match; [done|apply Sorted_take]. Qed.

(** ** Hot questions *)

Lemma hot_before_views x y : hot_before x y = true → more_views x y.
Proof.
  unfold hot_before, more_views.
  intros [H|[H _]%andb_prop]%orb_prop; lia.
Qed.

Lemma hot_before_not_views x y : hot_before x y = false → more_views y x.
Proof.
  unfold hot_before, more_views.
  intros [H _]%orb_false_elim. lia.
Qed.

(** X1: getHotQuestions never fails and leaves the world alone; it returns
    at most 5 questions (all of them when the store holds 5 or fewer), in
    descending order of views, and they are the most viewed: the store is
    the returned questions plus others, none of which has more views than
    any returned one. *)
Theorem getHotQuestions_top_views w :
  ∃ hot rest,
    getHotQuestions w = (Normal hot, w)
    ∧ length hot = Nat.min 5 (length (Questions (db w)))
    ∧ Sorted more_views hot
    ∧ Permutation (Questions (db w)) (hot ++ rest)
    ∧ ∀ x y, In x hot → In y rest → more_views x y.
Proof.
  set (sorted := sort_by hot_before (Questions (db w))).
  assert (Hperm : Permutation (Questions (db w)) sorted)
    by apply sort_by_Permutation.
  assert (Hsorted : Sorted more_views sorted).
  { apply sort_by_Sorted; [apply hot_before_views|apply hot_before_not_views]. }
  exists (take 5 sorted), (drop 5 sorted).
  split.
  { unfold getHotQuestions, Question_find_hot, find. run.
    rewrite forallb_filter_id; [done|]. by apply forallb_forall. }
  split.
  { rewrite length_take. f_equal. symmetry. by apply Permutation_length. }
  split; [by apply Sorted_take|].
  rewrite take_drop. split; [done|].
  apply StronglySorted_app_le. rewrite take_drop.
  apply Sorted_StronglySorted; [|done].
  intros a b c. unfold more_views. lia.
Qed.

(** ** More facts on collections *)

Section MoreCollectionFacts.
Context {A : Type} `{Document A}.

Lemma ids_updateById id f (l : list A) :
  (∀ d, doc_id (f d) = doc_id d) →
  List.map doc_id (updateById id f l) = List.map doc_id l.
Proof.
  intros Hf. induction l as [|d r IH]; simpl; [done|].
  case_decide; simpl; by rewrite ?Hf, ?IH.
Qed.

Lemma updateById_twice id f g (l : list A) :
  (∀ d, doc_id (f d) = doc_id d) →
  updateById id g (updateById id f l) = updateById id (λ d, g (f d)) l.
Proof.
  intros Hf. induction l as [|d r IH]; simpl; [done|].
  destruct (decide (doc_id d = id)) as [Hd|Hd]; simpl.
  - by rewrite Hf, decide_True.
  - by rewrite decide_False, IH.
Qed.

Lemma updateById_fixed id f (l : list A) d :
  findById id l = Some d → f d = d → updateById id f l = l.
Proof.
  induction l as [|x r IH]; simpl; [done|].
  destruct (decide (doc_id x = id)).
  - intros [= ->] ->. done.
  - intros Hr Hd. by rewrite IH.
Qed.

Lemma updateById_comm id id' f g (l : list A) :
  id ≠ id' →
  (∀ d, doc_id (f d) = doc_id d) → (∀ d, doc_id (g d) = doc_id d) →
  updateById id f (updateById id' g l) = updateById id' g (updateById id f l).
Proof.
  intros Hne Hf Hg. induction l as [|d r IH]; simpl; [done|].
  destruct (decide (doc_id d = id')) as [Hd'|Hd'];
    destruct (decide (doc_id d = id)) as [Hd|Hd]; simpl.
  - congruence.
  - rewrite Hg, (decide_False (P := doc_id d = id)) by done.
    simpl. by rewrite decide_True.
  - rewrite Hf, (decide_False (P := doc_id d = id')) by done.
    simpl. by rewrite decide_True.
  - by rewrite !decide_False, IH.
Qed.

Lemma deleteOne_absent id (l : list A) :
  findById id l = None → deleteOne id l = l.
Proof.
  induction l as [|d r IH]; simpl; [done|].
  destruct (decide (doc_id d = id)); [done|].
  intros Hr. by rewrite IH.
Qed.

Lemma deleteMany_twice (p : A → bool) (l : list A) :
  deleteMany p (deleteMany p l) = deleteMany p l.
Proof.
  unfold deleteMany. induction l as [|d r IH]; simpl; [done|].
  destruct (p d) eqn:Hd; simpl; [done|]. by rewrite Hd, IH.
Qed.
End MoreCollectionFacts.

Lemma inc_reputation_twice a b u :
  inc_reputation b (inc_reputation a u) = inc_reputation (a + b) u.
Proof. unfold inc_reputation. simpl. f_equal. lia. Qed.

Lemma inc_reputation_zero u : inc_reputation 0 u = u.
Proof. destruct u. unfold inc_reputation. simpl. f_equal. lia. Qed.

(** Taking back the two increments of a vote gives the users back. *)
Lemma increments_cancel s voter author (users : list User.t) :
  updateById author (inc_reputation (10 * - s))
    (updateById voter (inc_reputation (2 * - s))
       (updateById author (inc_reputation (10 * s))
          (updateById voter (inc_reputation (2 * s)) users)))
  = users.
Proof.
  destruct (decide (voter = author)) as [->|Hne].
  - rewrite !updateById_twice by done.
    apply updateById_same. intros u.
    rewrite !inc_reputation_twice.
    match goal with
    | |- inc_reputation ?n _ = _ => replace n with 0 by lia
    end.
    apply inc_reputation_zero.
  - rewrite (updateById_comm voter author) by done.
    rewrite (updateById_twice author) by done.
    rewrite (updateById_twice voter) by done.
    rewrite (updateById_same author), (updateById_same voter); [done|..];
      intros u; rewrite inc_reputation_twice;
      match goal with
      | |- inc_reputation ?n _ = _ => replace n with 0 by lia
      end; apply inc_reputation_zero.
Qed.

Lemma pull_In u v a : In u (pull v a) ↔ In u a ∧ u ≠ v.
Proof. unfold pull. by rewrite filter_In, negb_true_iff, N.eqb_neq. Qed.

Lemma pull_addToSet v a : ¬ In v a → pull v (addToSet v a) = a.
Proof.
  intros Hv. unfold addToSet.
  destruct (List.existsb (N.eqb v) a) eqn:E.
  - apply existsb_eqb_In in E. tauto.
  - unfold pull. rewrite List.filter_app. simpl. rewrite N.eqb_refl. simpl.
    rewrite app_nil_r. by apply pull_absent.
Qed.

Lemma addToSet_In v a : In v (addToSet v a).
Proof.
  unfold addToSet. destruct (List.existsb (N.eqb v) a) eqn:E.
  - by apply existsb_eqb_In.
  - apply in_or_app. right. by left.
Qed.

Lemma addToSet_NoDup v a : NoDup a → NoDup (addToSet v a).
Proof.
  intros Ha. unfold addToSet.
  destruct (List.existsb (N.eqb v) a) eqn:E; [done|].
  apply NoDup_app. split; [done|]. split; [|apply NoDup_singleton].
  intros x Hx ->%list_elem_of_singleton.
  apply list_elem_of_In, existsb_eqb_In in Hx. congruence.
Qed.

Lemma addToSet_present v a : In v a → addToSet v a = a.
Proof.
  intros Hv. unfold addToSet.
  apply existsb_eqb_In in Hv. by rewrite Hv.
Qed.



(** The question of a vote after the vote. *)
Lemma voted_question u s qid voter author path w q :
  findById qid (Questions (db w)) = Some q →
  findById qid (Questions (db (voted u s qid voter author path w)))
  = Some (apply_update u q).
Proof.
  intros Hq. simpl.
  rewrite (findById_updateById (A := Question.t)), decide_True, Hq; [done..|].
  intros d. apply apply_update_id.
Qed.

(** ** Voting: further properties *)

(** X2: an upvote by a user who is not in the upvotes, followed by the
    take-back the caller then reports, gives the store back as it was:
    every collection, vote arrays and reputations included. *)
Theorem upvote_then_take_back_restores w qid voter down path path' q :
  findById qid (Questions (db w)) = Some q →
  ¬ In voter (Question.upvotes q) →
  ∃ w1 w2,
    upvoteQuestion (QuestionVoteParams.mk qid voter false false path) w
    = (Normal tt, w1)
    ∧ upvoteQuestion (QuestionVoteParams.mk qid voter true down path') w1
      = (Normal tt, w2)
    ∧ db w2 = db w
    ∧ console w2 = console w.
Proof.
  intros Hq Hvoter.
  pose proof (upvoteQuestion_found w qid voter false false path q Hq) as H1.
  pose proof (voted_question (upvote_update voter false false) (vote_sign false)
                qid voter (Question.author q) path w q Hq) as Hq1.
  pose proof (upvoteQuestion_found _ qid voter true down path' _ Hq1) as H2.
  rewrite apply_update_author in H2.
  eexists _, _. split; [exact H1|]. split; [exact H2|].
  split; [|done].
  destruct w as [[Qs Ts Us Is As] n c cons rev]. simpl in *.
  f_equal.
  - rewrite (updateById_twice (A := Question.t))
      by (intros d; apply apply_update_id).
    apply (updateById_fixed (A := Question.t) _ _ _ q Hq).
    destruct q as [i t c0 a tg ups dns v ans cr]. simpl in *.
    unfold apply_update, question_array. simpl.
    by rewrite pull_addToSet.
  - exact (increments_cancel 1 voter (Question.author q) Us).
Qed.

Lemma upvote_then_take_back_restores_witness :
  (findById 10%N (Questions (db sample_world)) = Some sample_question
   ∧ ¬ In 2%N (Question.upvotes sample_question))
  ∧ ∃ w1 w2,
      upvoteQuestion (QuestionVoteParams.mk 10 2 false false "/a")
        sample_world = (Normal tt, w1)
      ∧ upvoteQuestion (QuestionVoteParams.mk 10 2 true false "/b") w1
        = (Normal tt, w2)
      ∧ db w2 = sample_db.
Proof.
  assert (Hn : ¬ In 2%N (Question.upvotes sample_question))
    by (simpl; tauto).
  split; [split; [reflexivity | exact Hn]|].
  destruct (upvote_then_take_back_restores sample_world 10 2 false "/a" "/b"
              sample_question eq_refl Hn) as (w1 & w2 & H1 & H2 & Hdb & _).
  exists w1, w2. split; [exact H1|]. split; [exact H2 | exact Hdb].
Defined.

(** X3: a downvote reported as coming from an upvote takes the user out of
    the upvotes and puts the user into the downvotes of the question in the
    one update; the reputations get the two increments of the adding
    sign. *)
Theorem downvote_switches_from_upvote w qid voter path q :
  findById qid (Questions (db w)) = Some q →
  ∃ w' q',
    downvoteQuestion (QuestionVoteParams.mk qid voter true false path) w
    = (Normal tt, w')
    ∧ findById qid (Questions (db w')) = Some q'
    ∧ Question.upvotes q' = pull voter (Question.upvotes q)
    ∧ Question.downvotes q' = push voter (Question.downvotes q)
    ∧ ¬ In voter (Question.upvotes q')
    ∧ In voter (Question.downvotes q')
    ∧ Users (db w')
      = updateById (Question.author q) (inc_reputation 10)
          (updateById voter (inc_reputation 2) (Users (db w))).
Proof.
  intros Hq.
  eexists _, (apply_update (downvote_update voter true false) q).
  split; [by apply downvoteQuestion_found|].
  split; [by apply voted_question|].
  split; [done|]. split; [done|].
  split; [apply pull_not_In|]. split; [apply push_In|]. done.
Qed.

Lemma downvote_switches_from_upvote_witness :
  findById 10%N (Questions (db sample_world)) = Some sample_question
  ∧ ∃ w' q',
      downvoteQuestion (QuestionVoteParams.mk 10 1 true false "/a")
        sample_world = (Normal tt, w')
      ∧ findById 10%N (Questions (db w')) = Some q'
      ∧ Question.upvotes q' = []
      ∧ Question.downvotes q' = [2%N; 1%N].
Proof.
  split; [reflexivity|].
  destruct (downvote_switches_from_upvote sample_world 10 1 "/a"
              sample_question eq_refl)
    as (w' & q' & Hrun & Hq' & Hu & Hd & _).
  exists w', q'. split; [exact Hrun|]. split; [exact Hq'|].
  split; [exact Hu | exact Hd].
Defined.



(** X5: a vote reported as a first vote adds the user to the array of its
    kind as to a set: the user is in it afterwards, an array without
    duplicates stays without duplicates, and a user who was in it already
    leaves it as it was; the other array is not touched.  The reputations
    get the two increments all the same. *)
Theorem first_vote_is_set_insertion w qid voter path q :
  findById qid (Questions (db w)) = Some q →
  (∃ w' q',
     upvoteQuestion (QuestionVoteParams.mk qid voter false false path) w
     = (Normal tt, w')
     ∧ findById qid (Questions (db w')) = Some q'
     ∧ In voter (Question.upvotes q')
     ∧ (NoDup (Question.upvotes q) → NoDup (Question.upvotes q'))
     ∧ (In voter (Question.upvotes q) →
        Question.upvotes q' = Question.upvotes q)
     ∧ (¬ In voter (Question.upvotes q) →
        Question.upvotes q' = Question.upvotes q ++ [voter])
     ∧ Question.downvotes q' = Question.downvotes q
     ∧ reputation_shift 1 voter (Question.author q)
         (Users (db w)) (Users (db w')))
  ∧ (∃ w' q',
       downvoteQuestion (QuestionVoteParams.mk qid voter false false path) w
       = (Normal tt, w')
       ∧ findById qid (Questions (db w')) = Some q'
       ∧ In voter (Question.downvotes q')
       ∧ (NoDup (Question.downvotes q) → NoDup (Question.downvotes q'))
       ∧ (In voter (Question.downvotes q) →
          Question.downvotes q' = Question.downvotes q)
       ∧ (¬ In voter (Question.downvotes q) →
          Question.downvotes q' = Question.downvotes q ++ [voter])
       ∧ Question.upvotes q' = Question.upvotes q
       ∧ reputation_shift 1 voter (Question.author q)
           (Users (db w)) (Users (db w'))).
Proof.
  intros Hq.
  assert (Hnew : ∀ a, ¬ In voter a → addToSet voter a = a ++ [voter]).
  { intros a Ha. unfold addToSet.
    destruct (List.existsb (N.eqb voter) a) eqn:E; [|done].
    apply existsb_eqb_In in E. tauto. }
  split.
  - eexists _, (apply_update (upvote_update voter false false) q).
    split; [by apply upvoteQuestion_found|].
    split; [by apply voted_question|].
    split; [apply addToSet_In|]. split; [apply addToSet_NoDup|].
    split; [apply addToSet_present|]. split; [apply Hnew|].
    split; [done|]. apply (two_increments_shift 1).
  - eexists _, (apply_update (downvote_update voter false false) q).
    split; [by apply downvoteQuestion_found|].
    split; [by apply voted_question|].
    split; [apply addToSet_In|]. split; [apply addToSet_NoDup|].
    split; [apply addToSet_present|]. split; [apply Hnew|].
    split; [done|]. apply (two_increments_shift 1).
Qed.

Lemma first_vote_is_set_insertion_witness :
  findById 10%N (Questions (db sample_world)) = Some sample_question
  ∧ ∃ w' q',
      downvoteQuestion (QuestionVoteParams.mk 10 2 false false "/a")
        sample_world = (Normal tt, w')
      ∧ findById 10%N (Questions (db w')) = Some q'
      ∧ Question.downvotes q' = [2%N]
      ∧ reputation_of 2%N (Users (db w')) = Some 52.
Proof.
  split; [reflexivity|].
  destruct (first_vote_is_set_insertion sample_world 10 2 "/a"
              sample_question eq_refl)
    as [_ (w' & q' & Hrun & Hq' & _ & _ & Hsame & _ & _ & Hrep)].
  exists w', q'. split; [exact Hrun|]. split; [exact Hq'|].
  split.
  - apply Hsame. simpl. tauto.
  - destruct Hrep as [Hne _]. destruct Hne as [Hv _]; [done|exact Hv].
Defined.

(** X6: an upvote reported as already given takes every occurrence of the
    user out of the upvotes and nobody else, whatever the other flag says,
    and does not touch the downvotes. *)
Theorem upvote_take_back_removes w qid voter down path q :
  findById qid (Questions (db w)) = Some q →
  ∃ w' q',
    upvoteQuestion (QuestionVoteParams.mk qid voter true down path) w
    = (Normal tt, w')
    ∧ findById qid (Questions (db w')) = Some q'
    ∧ ¬ In voter (Question.upvotes q')
    ∧ (∀ u, In u (Question.upvotes q')
            ↔ In u (Question.upvotes q) ∧ u ≠ voter)
    ∧ Question.downvotes q' = Question.downvotes q.
Proof.
  intros Hq.
  eexists _, (apply_update (upvote_update voter true down) q).
  split; [by apply upvoteQuestion_found|].
  split; [by apply voted_question|].
  split; [apply pull_not_In|].
  split; [intros u; apply pull_In|]. done.
Qed.

Lemma upvote_take_back_removes_witness :
  findById 10%N (Questions (db sample_world)) = Some sample_question
  ∧ ∃ w' q',
      upvoteQuestion (QuestionVoteParams.mk 10 2 true true "/a") sample_world
      = (Normal tt, w')
      ∧ findById 10%N (Questions (db w')) = Some q'
      ∧ ¬ In 2%N (Question.upvotes q')
      ∧ Question.downvotes q' = [2%N].
Proof.
  split; [reflexivity|].
  destruct (upvote_take_back_removes sample_world 10 2 true "/a"
              sample_question eq_refl)
    as (w' & q' & Hrun & Hq' & Hout & _ & Hd).
  exists w', q'. split; [exact Hrun|]. split; [exact Hq'|].
  split; [exact Hout | exact Hd].
Defined.

(** ** Editing and deleting: further properties *)

(** X7: editQuestion on a question that exists completes and invalidates
    the path; the question has the new title and content and is otherwise
    the one before; the other questions, the order of the collection and
    the other collections stay, and nothing is logged. *)
Theorem editQuestion_overwrites w params q :
  findById (EditQuestionParams.questionId params) (Questions (db w)) = Some q →
  let qid := EditQuestionParams.questionId params in
  ∃ w' q',
    editQuestion params w = (Normal tt, w')
    ∧ findById qid (Questions (db w')) = Some q'
    ∧ Question.title q' = EditQuestionParams.title params
    ∧ Question.content q' = EditQuestionParams.content params
    ∧ same_but_votes q
        (set_title_content (Question.title q) (Question.content q) q')
    ∧ Question.upvotes q' = Question.upvotes q
    ∧ Question.downvotes q' = Question.downvotes q
    ∧ (∀ id, id ≠ qid →
         findById id (Questions (db w')) = findById id (Questions (db w)))
    ∧ List.map Question._id (Questions (db w'))
      = List.map Question._id (Questions (db w))
    ∧ Tags (db w') = Tags (db w)
    ∧ Users (db w') = Users (db w)
    ∧ Interactions (db w') = Interactions (db w)
    ∧ Answers (db w') = Answers (db w)
    ∧ console w' = console w
    ∧ revalidated w' = revalidated w ++ [EditQuestionParams.path params].
Proof.
  destruct params as [qid title content path]; simpl. intros Hq.
  destruct (findById_In _ _ _ Hq) as [_ Hid].
  unfold doc_id, question_document in Hid.
  eexists _, (set_title_content title content q).
  split.
  { unfold editQuestion. run. rewrite Hq. simpl. rewrite Hid. reflexivity. }
  simpl. split.
  { by rewrite (findById_updateById (A := Question.t)), decide_True, Hq. }
  split; [done|]. split; [done|]. split; [done|].
  split; [done|]. split; [done|].
  split.
  { intros id Hne.
    by rewrite (findById_updateById (A := Question.t)), decide_False. }
  split; [by apply (ids_updateById (A := Question.t))|]. done.
Qed.

Lemma editQuestion_overwrites_witness :
  findById 10%N (Questions (db sample_world)) = Some sample_question
  ∧ ∃ w' q',
      editQuestion (EditQuestionParams.mk 10 "Two borrows" "Why" "/q")
        sample_world = (Normal tt, w')
      ∧ findById 10%N (Questions (db w')) = Some q'
      ∧ Question.title q' = "Two borrows"
      ∧ Question.content q' = "Why"
      ∧ Question.downvotes q' = [2%N].
Proof.
  split; [reflexivity|].
  destruct (editQuestion_overwrites sample_world
              (EditQuestionParams.mk 10 "Two borrows" "Why" "/q")
              sample_question eq_refl)
    as (w' & q' & Hrun & Hq' & Ht & Hc & _ & _ & Hd & _).
  exists w', q'. split; [exact Hrun|]. split; [exact Hq'|].
  split; [exact Ht|]. split; [exact Hc | exact Hd].
Defined.

(** The world after deleteQuestion on an identifier that resolves to no
    question. *)
Lemma deleteQuestion_absent w qid path :
  findById qid (Questions (db w)) = None →
  deleteQuestion (DeleteQuestionParams.mk qid path) w
  = (Normal tt,
     mkWorld
       (mkDatabase
          (Questions (db w))
          (updateMany (λ t, List.existsb (N.eqb qid) (Tag.questions t))
             (pull_question qid) (Tags (db w)))
          (Users (db w))
          (deleteMany (λ i, N.eqb (Interaction.question i) qid)
             (Interactions (db w)))
          (deleteMany (λ a, N.eqb (Answer.question a) qid) (Answers (db w))))
       (next_oid w) (now w)
       (console w
        ++ [TypeError "Cannot read properties of null (reading 'author')"])
       (revalidated w)).
Proof.
  intros Hq. unfold deleteQuestion. run. rewrite Hq. simpl.
  by rewrite deleteOne_absent.
Qed.

(** X8: deleteQuestion on an identifier that resolves to no question still
    runs its cascade before it fails on the author: the answers and the
    interactions of that identifier are removed and the identifier is
    pulled out of every tag, each tag staying at its place with its
    identifier, its name and its other references.  The failure is logged
    and swallowed; no question, no reputation and no cache path is
    touched. *)
Theorem deleteQuestion_absent_still_cascades w params :
  findById (DeleteQuestionParams.questionId params) (Questions (db w)) = None →
  let qid := DeleteQuestionParams.questionId params in
  ∃ w',
    deleteQuestion params w = (Normal tt, w')
    ∧ Questions (db w') = Questions (db w)
    ∧ Users (db w') = Users (db w)
    ∧ (∀ a, In a (Answers (db w'))
            ↔ In a (Answers (db w)) ∧ Answer.question a ≠ qid)
    ∧ (∀ i, In i (Interactions (db w'))
            ↔ In i (Interactions (db w)) ∧ Interaction.question i ≠ qid)
    ∧ (∀ t, In t (Tags (db w')) → ¬ In qid (Tag.questions t))
    ∧ Tags (db w')
      = List.map
          (λ t, Tag.mk (Tag._id t) (Tag.name t) (pull qid (Tag.questions t)))
          (Tags (db w))
    ∧ revalidated w' = revalidated w
    ∧ console w'
      = console w
        ++ [TypeError "Cannot read properties of null (reading 'author')"].
Proof.
  destruct params as [qid path]; simpl. intros Hq.
  eexists. split; [by apply deleteQuestion_absent|]. simpl.
  split; [done|]. split; [done|].
  split; [intros a; rewrite deleteMany_In, N.eqb_neq; tauto|].
  split; [intros i; rewrite deleteMany_In, N.eqb_neq; tauto|].
  split; [apply pulled_from_every_tag|].
  split; [apply pull_question_all|]. done.
Qed.

Lemma deleteQuestion_absent_still_cascades_witness :
  findById 11%N (Questions (db stale_world)) = None
  ∧ ∃ w',
      deleteQuestion (DeleteQuestionParams.mk 11 "/") stale_world
      = (Normal tt, w')
      ∧ Answers (db w') = []
      ∧ Tags (db w') = [Tag.mk 20 "rust" []]
      ∧ Users (db w') = [alice]
      ∧ revalidated w' = [].
Proof.
  split; [reflexivity|].
  destruct (deleteQuestion_absent_still_cascades stale_world
              (DeleteQuestionParams.mk 11 "/") eq_refl)
    as (w' & Hrun & _ & Hu & _ & _ & _ & Htags & Hrev & _).
  exists w'. split; [exact Hrun|].
  split; [injection Hrun as <-; reflexivity|].
  split; [exact Htags|]. split; [exact Hu | exact Hrev].
Defined.

Lemma pull_question_twice qid (tags : list Tag.t) :
  let listed := λ t, List.existsb (N.eqb qid) (Tag.questions t) in
  updateMany listed (pull_question qid)
    (updateMany listed (pull_question qid) tags)
  = updateMany listed (pull_question qid) tags.
Proof.
  intros listed. unfold updateMany. rewrite map_map.
  apply map_ext. intros t.
  destruct (listed t) eqn:Ht; [|by rewrite Ht].
  assert (listed (pull_question qid t) = false) as ->; [|done].
  unfold listed. simpl. apply not_true_is_false.
  rewrite existsb_eqb_In. apply pull_not_In.
Qed.

(** X9: a second deleteQuestion of the same question changes nothing in the
    store and invalidates no path: the author is charged once, and the
    second call only logs the failure it swallows. *)
Theorem deleteQuestion_twice_charges_once w params q :
  findById (DeleteQuestionParams.questionId params) (Questions (db w))
  = Some q →
  unique_ids (Questions (db w)) →
  ∃ w1 w2,
    deleteQuestion params w = (Normal tt, w1)
    ∧ deleteQuestion params w1 = (Normal tt, w2)
    ∧ db w2 = db w1
    ∧ revalidated w2 = revalidated w1
    ∧ reputation_of (Question.author q) (Users (db w2))
      = (λ r, r - 5) <$> reputation_of (Question.author q) (Users (db w)).
Proof.
  destruct params as [qid path]; simpl. intros Hq Huniq.
  pose proof (deleteQuestion_found w qid path q Hq) as H1.
  assert (Hgone : findById qid
                    (Questions (db (deleted qid (Question.author q) path w)))
                  = None) by (by apply deleteOne_gone).
  pose proof (deleteQuestion_absent _ qid path Hgone) as H2.
  eexists _, _. split; [exact H1|]. split; [exact H2|]. simpl.
  split.
  - f_equal; [apply pull_question_twice|apply deleteMany_twice..].
  - split; [done|].
    rewrite reputation_of_inc, decide_True by done.
    by destruct (reputation_of _ _).
Qed.

Lemma deleteQuestion_twice_charges_once_witness :
  (findById 10%N (Questions (db sample_world)) = Some sample_question
   ∧ unique_ids (Questions (db sample_world)))
  ∧ ∃ w1 w2,
      deleteQuestion (DeleteQuestionParams.mk 10 "/") sample_world
      = (Normal tt, w1)
      ∧ deleteQuestion (DeleteQuestionParams.mk 10 "/") w1 = (Normal tt, w2)
      ∧ db w2 = db w1
      ∧ reputation_of 1%N (Users (db w2)) = Some 95.
Proof.
  assert (Hu : unique_ids (Questions (db sample_world))).
  { unfold unique_ids. simpl. apply NoDup_singleton. }
  split; [split; [reflexivity | exact Hu]|].
  destruct (deleteQuestion_twice_charges_once sample_world
              (DeleteQuestionParams.mk 10 "/") sample_question eq_refl Hu)
    as (w1 & w2 & H1 & H2 & Hdb & _ & Hrep).
  exists w1, w2. split; [exact H1|]. split; [exact H2|].
  split; [exact Hdb | exact Hrep].
Defined.

(** ** Fetching and listing: further properties *)

Lemma omap_cons {A B} (f : A → option B) x (l : list A) :
  omap f (x :: l)
  = match f x with
    | Some y => y :: omap f l
    | None => omap f l
    end.
Proof. reflexivity. Qed.

Lemma populate_tags_ids d ids :
  List.map Tag._id (populate_tags d ids) = List.filter (tag_exists d) ids.
Proof.
  unfold populate_tags.
  induction ids as [|id ids IH]; [done|].
  rewrite omap_cons. cbn [List.filter]. unfold tag_exists at 1.
  destruct (findById id (Tags d)) as [t|] eqn:Ht; [|done].
  destruct (findById_In _ _ _ Ht) as [_ Hid].
  unfold doc_id, tag_document in Hid. cbn [List.map]. by rewrite Hid, IH.
Qed.

(** X10: getQuestionById never fails and changes nothing: an identifier
    that resolves to no question gives null, without an error or a log
    entry; a question comes back with the identifier and the clerk id of
    its author, if the author has a document, and with the identifier and
    the name of the tags its references resolve to, in the order of the
    references, the dangling references left out; nothing else of the tag
    and user documents (question lists, reputation) is returned. *)
Theorem getQuestionById_resolves w params :
  let qid := GetQuestionByIdParams.questionId params in
  ∃ r,
    getQuestionById params w = (Normal r, w)
    ∧ (findById qid (Questions (db w)) = None → r = None)
    ∧ ∀ q, findById qid (Questions (db w)) = Some q →
        ∃ sq,
          r = Some sq
          ∧ sq_doc sq = q
          ∧ List.map TagView._id (sq_tags sq)
            = List.filter (tag_exists (db w)) (Question.tags q)
          ∧ (∀ v, In v (sq_tags sq) →
               ∃ t, findById (TagView._id v) (Tags (db w)) = Some t
                    ∧ TagView.name v = Tag.name t)
          ∧ sq_author sq
            = (λ u, AuthorView.mk (User._id u) (User.clerkId u))
              <$> findById (Question.author q) (Users (db w)).
Proof.
  destruct params as [qid]; simpl.
  exists (populate_selected (db w) <$> findById qid (Questions (db w))).
  split; [unfold getQuestionById; run; done|].
  split; [by intros ->|].
  intros q ->. exists (populate_selected (db w) q). simpl.
  split; [done|]. split; [done|].
  split.
  { rewrite map_map. apply (populate_tags_ids (db w)). }
  split; [|done].
  intros v (t & <- & Ht)%in_map_iff. simpl.
  apply populate_tags_In in Ht as [_ Ht]. by exists t.
Qed.

Lemma In_apply_sort s (l : list Question.t) x :
  In x (apply_sort s l) → In x l.
Proof.
  destruct s; simpl; [done|..]; rewrite sort_desc_sort_by;
    apply Permutation_in; symmetry; apply sort_by_Permutation.
Qed.

Lemma apply_sort_length s (l : list Question.t) :
  length (apply_sort s l) = length l.
Proof.
  destruct s; simpl; [done|..]; rewrite sort_desc_sort_by;
    symmetry; apply Permutation_length, sort_by_Permutation.
Qed.

Lemma sort_desc_Sorted {A} (key : A → Z) (l : list A) :
  Sorted (λ x y, key y ≤ key x) (sort_desc key l).
Proof.
  rewrite sort_desc_sort_by. apply sort_by_Sorted; intros a b Hab; lia.
Qed.

Section ListingProperties.
Context `{RegExpEngine}.

(** X11: what getQuestions returns are questions of the store that the
    search text selects; with the filter newest they come newest first,
    with frequent most viewed first, and with unanswered they are all
    without an answer. *)
Theorem getQuestions_filters w searchQuery filter page pageSize qs isNext w' :
  getQuestions (GetQuestionsParams.mk searchQuery filter page pageSize) w
  = (Normal (qs, isNext), w') →
  (∀ pq, In pq qs →
     In (pq_doc pq) (Questions (db w))
     ∧ search_matches searchQuery (pq_doc pq) = true)
  ∧ (filter = Some "newest" → Sorted newer (List.map pq_doc qs))
  ∧ (filter = Some "frequent" → Sorted more_views (List.map pq_doc qs))
  ∧ (filter = Some "unanswered" →
     ∀ pq, In pq qs → Question.answers (pq_doc pq) = []).
Proof.
  intros (_ & _ & -> & _)%getQuestions_returns.
  assert (Hsel : ∀ pq,
    In pq (List.map (populate_question (db w))
             (apply_limit (default 10 pageSize)
                (drop (Z.to_nat ((default 1 page - 1) * default 10 pageSize))
                   (apply_sort (sort_of filter)
                      (List.filter (listed searchQuery filter)
                         (Questions (db w))))))) →
    In (pq_doc pq) (Questions (db w))
    ∧ listed searchQuery filter (pq_doc pq) = true).
  { intros pq (q & <- & Hq)%in_map_iff. simpl.
    by apply In_apply_limit, In_drop, In_apply_sort, filter_In in Hq. }
  split.
  { intros pq Hpq. destruct (Hsel pq Hpq) as [Hin Hl].
    split; [done|]. unfold listed in Hl. by apply andb_prop in Hl as [? _]. }
  rewrite populated_docs.
  split; [|split].
  - intros ->. apply Sorted_apply_limit, Sorted_drop.
    apply (sort_desc_Sorted Question.createdAt).
  - intros ->. apply Sorted_apply_limit, Sorted_drop.
    apply (sort_desc_Sorted Question.views).
  - intros -> pq Hpq. destruct (Hsel pq Hpq) as [_ Hl].
    unfold listed in Hl. apply andb_prop in Hl as [_ Hl].
    rewrite decide_True in Hl by done.
    apply Nat.eqb_eq in Hl. by destruct (Question.answers (pq_doc pq)).
Qed.

Lemma apply_limit_drop_length {A} (n : Z) (k : nat) (l : list A) :
  1 ≤ n →
  length (apply_limit n (drop k l))
  = Nat.min (Z.to_nat n) (length l - k).
Proof.
  intros Hn. unfold apply_limit.
  destruct (n =? 0) eqn:E; [lia|].
  rewrite length_take, length_drop. lia.
Qed.

(** X12: for a page and a page size of at least 1, isNext of a page is true
    exactly when the next page of the same request holds a question; a page
    with isNext true is full, and a page after an empty page is empty. *)
Theorem isNext_announces_next_page w searchQuery filter page pageSize
    qs isNext qs' isNext' :
  1 ≤ page → 1 ≤ pageSize →
  getQuestions
    (GetQuestionsParams.mk searchQuery filter (Some page) (Some pageSize)) w
  = (Normal (qs, isNext), w) →
  getQuestions
    (GetQuestionsParams.mk searchQuery filter (Some (page + 1))
       (Some pageSize)) w
  = (Normal (qs', isNext'), w) →
  (isNext = true ↔ qs' ≠ [])
  ∧ (isNext = true → Z.of_nat (length qs) = pageSize)
  ∧ (qs = [] → qs' = []).
Proof.
  intros Hpage Hsize
    (_ & _ & Hqs & HisNext)%getQuestions_returns
    (_ & _ & Hqs' & _)%getQuestions_returns.
  simpl in *.
  set (selected := List.filter (listed searchQuery filter) (Questions (db w)))
    in *.
  set (sorted := apply_sort (sort_of filter) selected) in *.
  assert (Hlen : length sorted = length selected) by apply apply_sort_length.
  assert (Hl : length qs
               = Nat.min (Z.to_nat pageSize)
                   (length sorted - Z.to_nat ((page - 1) * pageSize))).
  { rewrite Hqs, length_map. by apply apply_limit_drop_length. }
  assert (Hl' : length qs'
                = Nat.min (Z.to_nat pageSize)
                    (length sorted - Z.to_nat ((page + 1 - 1) * pageSize))).
  { rewrite Hqs', length_map. by apply apply_limit_drop_length. }
  replace ((page + 1 - 1) * pageSize) with ((page - 1) * pageSize + pageSize)
    in Hl' by ring.
  assert (Hskip : 0 ≤ (page - 1) * pageSize) by nia.
  clear Hqs Hqs'. generalize dependent ((page - 1) * pageSize).
  intros skip HisNext Hl Hl' Hskip.
  assert (Hne : qs' ≠ [] ↔ (0 < length qs')%nat).
  { destruct qs'; simpl; split; try done; lia. }
  assert (He : qs = [] ↔ length qs = 0%nat).
  { destruct qs; simpl; split; try done. }
  assert (He' : qs' = [] ↔ length qs' = 0%nat).
  { destruct qs'; simpl; split; try done. }
  rewrite Hne, He, He', HisNext, Z.ltb_lt. lia.
Qed.
End ListingProperties.

Lemma isNext_announces_next_page_witness :
  (1 ≤ 1 ∧ 1 ≤ 2
   ∧ @getQuestions literal_engine
       (GetQuestionsParams.mk None (Some "frequent") (Some 1) (Some 2))
       listing_world
     = (Normal (List.map (populate_question (db listing_world))
                  [Question.mk 12 "Traits" "When to borrow one" 1 [] [] [] 9
                     [41%N] 2;
                   Question.mk 10 "Borrowing twice" "Why is it rejected" 1
                     [20%N] [] [] 5 [40%N] 1],
                true), listing_world)
   ∧ @getQuestions literal_engine
       (GetQuestionsParams.mk None (Some "frequent") (Some (1 + 1)) (Some 2))
       listing_world
     = (Normal (List.map (populate_question (db listing_world))
                  [Question.mk 11 "Lifetimes" "What does it mean" 2 [20%N]
                     [] [] 1 [] 3],
                false), listing_world))
  ∧ (true = true
     ↔ List.map (populate_question (db listing_world))
         [Question.mk 11 "Lifetimes" "What does it mean" 2 [20%N] [] [] 1 []
            3] ≠ []).
Proof.
  assert (H1 : 1 ≤ 1) by lia. assert (H2 : 1 ≤ 2) by lia.
  assert (Hp1 :
    @getQuestions literal_engine
      (GetQuestionsParams.mk None (Some "frequent") (Some 1) (Some 2))
      listing_world
    = (Normal (List.map (populate_question (db listing_world))
                 [Question.mk 12 "Traits" "When to borrow one" 1 [] [] [] 9
                    [41%N] 2;
                  Question.mk 10 "Borrowing twice" "Why is it rejected" 1
                    [20%N] [] [] 5 [40%N] 1],
               true), listing_world)) by (vm_compute; reflexivity).
  assert (Hp2 :
    @getQuestions literal_engine
      (GetQuestionsParams.mk None (Some "frequent") (Some (1 + 1)) (Some 2))
      listing_world
    = (Normal (List.map (populate_question (db listing_world))
                 [Question.mk 11 "Lifetimes" "What does it mean" 2 [20%N]
                    [] [] 1 [] 3],
               false), listing_world)) by (vm_compute; reflexivity).
  split; [repeat split; assumption|].
  exact (proj1 (@isNext_announces_next_page literal_engine
                  listing_world None (Some "frequent") 1 2 _ _ _ _
                  H1 H2 Hp1 Hp2)).
Defined.

Lemma getQuestions_filters_witness :
  @getQuestions literal_engine
    (GetQuestionsParams.mk (Some "borrow") (Some "newest") None None)
    listing_world
  = (Normal (List.map (populate_question (db listing_world))
               [Question.mk 12 "Traits" "When to borrow one" 1 [] [] [] 9
                  [41%N] 2;
                Question.mk 10 "Borrowing twice" "Why is it rejected" 1
                  [20%N] [] [] 5 [40%N] 1],
             false), listing_world)
  ∧ (Some "newest" = Some "newest" →
     Sorted newer
       (List.map pq_doc
          (List.map (populate_question (db listing_world))
             [Question.mk 12 "Traits" "When to borrow one" 1 [] [] [] 9
                [41%N] 2;
              Question.mk 10 "Borrowing twice" "Why is it rejected" 1
                [20%N] [] [] 5 [40%N] 1]))).
Proof.
  assert (Hrun :
    @getQuestions literal_engine
      (GetQuestionsParams.mk (Some "borrow") (Some "newest") None None)
      listing_world
    = (Normal (List.map (populate_question (db listing_world))
                 [Question.mk 12 "Traits" "When to borrow one" 1 [] [] [] 9
                    [41%N] 2;
                  Question.mk 10 "Borrowing twice" "Why is it rejected" 1
                    [20%N] [] [] 5 [40%N] 1],
               false), listing_world)) by (vm_compute; reflexivity).
  split; [exact Hrun|].
  exact (proj1 (proj2 (@getQuestions_filters literal_engine _ _ _ _ _ _ _ _
                         Hrun))).
Defined.

(** ** Creating: further properties *)

Lemma updateById_app_new {A} `{Document A} id f (l : list A) d :
  findById id l = None → doc_id d = id →
  updateById id f (l ++ [d]) = l ++ [f d].
Proof.
  intros Hl Hd. induction l as [|x l IH]; simpl in *.
  - by rewrite decide_True.
  - destruct (decide (doc_id x = id)); [done|]. by rewrite IH.
Qed.

Lemma deleteOne_app_new {A} `{Document A} id (l : list A) d :
  findById id l = None → doc_id d = id → deleteOne id (l ++ [d]) = l.
Proof.
  intros Hl Hd. induction l as [|x l IH]; simpl in *.
  - by rewrite decide_True.
  - destruct (decide (doc_id x = id)); [done|]. by rewrite IH.
Qed.

Lemma extends_ids l l' t :
  extends l l' → In t l → ∃ t', In t' l' ∧ Tag._id t' = Tag._id t.
Proof.
  revert l'. induction l as [|x l IH]; intros l' Hext; simpl; [done|].
  apply extends_cons in Hext as (x' & r' & -> & Hkey & Hext).
  injection Hkey as Hid Hname.
  intros [<-|Ht].
  - exists x'. split; [by left|done].
  - destruct (IH r' Hext Ht) as (t' & Ht' & Hid'). exists t'.
    split; [by right|done].
Qed.

Lemma extends_length l l' : extends l l' → (length l ≤ length l')%nat.
Proof.
  intros [k Hk]. apply (f_equal length) in Hk.
  rewrite length_app, !length_map in Hk. lia.
Qed.

Section CreateProperties.
Context `{RegExpEngine}.

(** One turn of the loop on any store: the name resolves to a tag of the
    collection it leaves, which holds the tags it found, as they were named
    and identified, and at most one more. *)
Lemma Tag_findOneAndUpdate_any tag qid re w :
  RegExp_i (exactly tag) = Some re →
  ∃ t' l' n',
    Tag_findOneAndUpdate tag qid w = (Normal t', with_Tags l' n' w)
    ∧ extends (Tags (db w)) l'
    ∧ In t' l'
    ∧ In qid (Tag.questions t')
    ∧ (is_Some (findOne (λ t, re (Tag.name t)) (Tags (db w))) →
       List.map tag_key l' = List.map tag_key (Tags (db w))
       ∧ n' = next_oid w).
Proof.
  intros Hre.
  unfold Tag_findOneAndUpdate, new_RegExp_i. fold (exactly tag).
  rewrite Hre.
  unfold put_db, get_db, new_ObjectId, mbind, mret, action_bind, action_ret.
  simpl.
  destruct (findOne _ (Tags (db w))) as [[i t]|] eqn:Hfind; simpl.
  - destruct (findOne_Some _ _ _ _ Hfind) as (Hi & _ & _).
    eexists _, _, _. split; [done|].
    split; [by eapply extends_insert|].
    split.
    { apply (lookup_In _ i). apply list_lookup_insert_eq.
      by eapply lookup_lt_Some. }
    split; [apply push_In|].
    intros _. split; [|done].
    change (List.map tag_key) with (fmap (M:=list) tag_key).
    rewrite list_fmap_insert. apply list_insert_id.
    by rewrite list_lookup_fmap, Hi.
  - eexists _, _, _. split; [done|].
    split; [apply extends_app|].
    split; [apply in_or_app; right; by left|].
    split; [by left|]. by intros [? ?].
Qed.

Lemma Tag_findOneAndUpdate_rejected tag qid w :
  RegExp_i (exactly tag) = None →
  Tag_findOneAndUpdate tag qid w = (Throw (SyntaxError (exactly tag)), w).
Proof.
  intros Hre. unfold Tag_findOneAndUpdate, new_RegExp_i. fold (exactly tag).
  by rewrite Hre.
Qed.

(** The loop on any store, when the engine accepts every pattern. *)
Lemma resolve_tags_any qid tags : ∀ acc w,
  Forall (λ t, is_Some (RegExp_i (exactly t))) tags →
  ∃ docs l' n',
    resolve_tags qid tags acc w = (Normal (acc ++ docs), with_Tags l' n' w)
    ∧ length docs = length tags
    ∧ extends (Tags (db w)) l'
    ∧ (∀ id, In id docs →
         ∃ t, In t l' ∧ Tag._id t = id)
    ∧ ((∀ tag, In tag tags →
          ∃ re, RegExp_i (exactly tag) = Some re
                ∧ is_Some (findOne (λ t, re (Tag.name t)) (Tags (db w)))) →
       List.map tag_key l' = List.map tag_key (Tags (db w))
       ∧ n' = next_oid w).
Proof.
  induction tags as [|tag tags IH]; intros acc w Hall.
  - exists [], (Tags (db w)), (next_oid w).
    rewrite with_Tags_same, app_nil_r. simpl.
    split; [done|]. split; [done|]. split; [apply extends_refl|].
    split; [by intros id []|]. done.
  - apply Forall_cons in Hall as [[re Hre] Hall].
    destruct (Tag_findOneAndUpdate_any tag qid re w Hre)
      as (t' & l1 & n1 & Hstep & Hext1 & Hin1 & _ & Hsame1).
    destruct (IH (acc ++ [Tag._id t']) (with_Tags l1 n1 w) Hall)
      as (docs & l2 & n2 & Hrun & Hlen & Hext2 & Hids2 & Hsame2).
    simpl in Hext2.
    exists (Tag._id t' :: docs), l2, n2.
    split.
    { simpl. unfold mbind, action_bind. rewrite Hstep, Hrun.
      by rewrite <- app_assoc. }
    split; [simpl; by rewrite Hlen|].
    split; [by eapply extends_trans|].
    split.
    { intros id [<-|Hid]; [|by apply Hids2].
      by apply (extends_ids l1 l2). }
    intros Hmatch.
    destruct (Hmatch tag (or_introl eq_refl)) as (re0 & Hre0 & Hfound).
    rewrite Hre in Hre0. injection Hre0 as <-.
    destruct (Hsame1 Hfound) as [Hkeys1 ->].
    destruct Hsame2 as [Hkeys2 ->]; [|by rewrite Hkeys2].
    intros tag0 Htag0.
    destruct (Hmatch tag0 (or_intror Htag0)) as (re0 & Hre0 & [[i t] Hf]).
    exists re0. split; [done|]. simpl.
    assert (Hext : extends (Tags (db w)) l1) by done.
    destruct (findOne_extends re0 _ _ _ _ Hext Hf) as (t1 & -> & _).
    by eexists.
Qed.

Lemma keeps_refs_refl l : keeps_refs l l.
Proof. intros t Ht. by exists t. Qed.

Lemma keeps_refs_trans l1 l2 l3 :
  keeps_refs l1 l2 → keeps_refs l2 l3 → keeps_refs l1 l3.
Proof.
  intros H12 H23 t Ht.
  destruct (H12 t Ht) as (t2 & Ht2 & Hid2 & Hr2).
  destruct (H23 t2 Ht2) as (t3 & Ht3 & Hid3 & Hr3).
  exists t3. split; [done|]. split; [congruence|]. auto.
Qed.

Lemma keeps_refs_app l k : keeps_refs l (l ++ k).
Proof.
  intros t Ht. exists t. split; [|done]. apply in_or_app. by left.
Qed.

Lemma keeps_refs_push qid l i t :
  l !! i = Some t → keeps_refs l (<[i:=push_question qid t]> l).
Proof.
  intros Hi t0 Ht0.
  apply list_elem_of_In, list_elem_of_lookup in Ht0 as [j Hj].
  destruct (decide (j = i)) as [->|Hne].
  - rewrite Hi in Hj. injection Hj as <-.
    exists (push_question qid t). split.
    + apply (lookup_In _ i), list_lookup_insert_eq.
      by eapply lookup_lt_Some.
    + split; [done|]. intros r Hr. simpl. unfold push.
      apply in_or_app. by left.
  - exists t0. split; [|done].
    apply (lookup_In _ j). by rewrite list_lookup_insert_ne.
Qed.

(** A turn of the loop that ends well leaves the tag it resolved in the
    store, listing the question, and takes no reference away. *)
Lemma Tag_findOneAndUpdate_keeps tag qid w t' w' :
  Tag_findOneAndUpdate tag qid w = (Normal t', w') →
  keeps_refs (Tags (db w)) (Tags (db w'))
  ∧ In t' (Tags (db w'))
  ∧ In qid (Tag.questions t').
Proof.
  unfold Tag_findOneAndUpdate, new_RegExp_i.
  destruct (RegExp_i _) as [re|]; [|done].
  unfold put_db, get_db, new_ObjectId, mbind, mret, action_bind, action_ret,
    throw.
  simpl.
  destruct (findOne _ (Tags (db w))) as [[i t]|] eqn:Hfind; simpl;
    intros [= <- <-]; simpl.
  - destruct (findOne_Some _ _ _ _ Hfind) as (Hi & _ & _).
    split; [by apply keeps_refs_push|].
    split; [|apply push_In].
    apply (lookup_In _ i), list_lookup_insert_eq. by eapply lookup_lt_Some.
  - split; [apply keeps_refs_app|].
    split; [apply in_or_app; right; by left|by left].
Qed.

(** The loop, when it ends well: every name it resolved has its tag in the
    store it leaves, and that tag lists the question. *)
Lemma resolve_tags_lists qid tags : ∀ acc w docs' w',
  resolve_tags qid tags acc w = (Normal docs', w') →
  keeps_refs (Tags (db w)) (Tags (db w'))
  ∧ ∃ docs,
      docs' = acc ++ docs
      ∧ ∀ id, In id docs →
          ∃ t, In t (Tags (db w')) ∧ Tag._id t = id
               ∧ In qid (Tag.questions t).
Proof.
  induction tags as [|tag tags IH]; intros acc w docs' w'; simpl.
  - unfold mret, action_ret. intros [= <- <-].
    split; [apply keeps_refs_refl|]. exists [].
    split; [by rewrite app_nil_r|]. by intros id [].
  - unfold mbind, action_bind.
    destruct (Tag_findOneAndUpdate tag qid w) as [[t'|e] w1] eqn:Hstep;
      [|done].
    intros Hrun.
    destruct (Tag_findOneAndUpdate_keeps _ _ _ _ _ Hstep)
      as (Hkeep1 & Hin1 & Hq1).
    destruct (IH _ _ _ _ Hrun) as (Hkeep2 & docs & -> & Hdocs).
    split; [by eapply keeps_refs_trans|].
    exists (Tag._id t' :: docs). split; [by rewrite <- app_assoc|].
    intros id [<-|Hid]; [|by apply Hdocs].
    destruct (Hkeep2 t' Hin1) as (t2 & Ht2 & Hid2 & Hr2).
    exists t2. split; [done|]. split; [done|]. by apply Hr2.
Qed.

(** The loop stops at the first name whose pattern the engine rejects, on
    the store that the names before it leave. *)
Lemma resolve_tags_rejected qid good bad rest : ∀ acc w,
  Forall (λ t, is_Some (RegExp_i (exactly t))) good →
  RegExp_i (exactly bad) = None →
  ∃ docs l' n',
    resolve_tags qid good acc w = (Normal (acc ++ docs), with_Tags l' n' w)
    ∧ length docs = length good
    ∧ resolve_tags qid (good ++ bad :: rest) acc w
      = (Throw (SyntaxError (exactly bad)), with_Tags l' n' w)
    ∧ extends (Tags (db w)) l'.
Proof.
  induction good as [|tag good IH]; intros acc w Hall Hbad.
  - exists [], (Tags (db w)), (next_oid w).
    rewrite with_Tags_same, app_nil_r. simpl.
    unfold mbind, action_bind. rewrite Tag_findOneAndUpdate_rejected by done.
    split; [done|]. split; [done|]. split; [done|apply extends_refl].
  - apply Forall_cons in Hall as [[re Hre] Hall].
    destruct (Tag_findOneAndUpdate_any tag qid re w Hre)
      as (t' & l1 & n1 & Hstep & Hext1 & _).
    destruct (IH (acc ++ [Tag._id t']) (with_Tags l1 n1 w) Hall Hbad)
      as (docs & l2 & n2 & Hgood & Hlen & Hrun & Hext2).
    exists (Tag._id t' :: docs), l2, n2. split.
    { simpl. unfold mbind, action_bind. rewrite Hstep, Hgood.
      by rewrite <- app_assoc. }
    split; [simpl; by rewrite Hlen|].
    split.
    { simpl. unfold mbind, action_bind. by rewrite Hstep, Hrun. }
    by eapply extends_trans.
Qed.

(** X13: when the engine rejects the pattern of one of the tag names,
    createQuestion logs the error and returns normally all the same, and
    leaves a half-made question behind: the question is stored without a
    tag; the tag collection is the one the loop leaves after the names
    before the rejected one, so that each of these names has its tag in the
    store, listing the new question, and no tag or reference that was there
    is lost; there is no interaction, no reputation for the author and no
    invalidated path. *)
Theorem createQuestion_rejected_tag w title content good bad rest author
    path :
  Forall (λ t, is_Some (RegExp_i (exactly t))) good →
  RegExp_i (exactly bad) = None →
  ∃ w' docs n',
    createQuestion
      (CreateQuestionParams.mk title content (good ++ bad :: rest) author
         path) w
    = (Normal tt, w')
    ∧ Questions (db w')
      = Questions (db w)
        ++ [Question.mk (next_oid w) title content author [] [] [] 0 []
              (now w)]
    ∧ extends (Tags (db w)) (Tags (db w'))
    ∧ resolve_tags (next_oid w) good [] (asked title content author w)
      = (Normal docs,
         with_Tags (Tags (db w')) n' (asked title content author w))
    ∧ length docs = length good
    ∧ (∀ id, In id docs →
         ∃ t, In t (Tags (db w')) ∧ Tag._id t = id
              ∧ In (next_oid w) (Tag.questions t))
    ∧ keeps_refs (Tags (db w)) (Tags (db w'))
    ∧ Users (db w') = Users (db w)
    ∧ Interactions (db w') = Interactions (db w)
    ∧ Answers (db w') = Answers (db w)
    ∧ revalidated w' = revalidated w
    ∧ console w' = console w ++ [SyntaxError (exactly bad)].
Proof.
  intros Hall Hbad.
  destruct (resolve_tags_rejected (next_oid w) good bad rest []
              (asked title content author w) Hall Hbad)
    as (docs & l' & n' & Hgood & Hlen & Hrun & Hext).
  destruct (resolve_tags_lists _ _ _ _ _ _ Hgood)
    as (Hkeep & docs0 & Heq & Hdocs).
  simpl in Heq. subst docs0.
  eexists _, docs, n'. split.
  { unfold createQuestion. run. unfold asked in Hrun. simpl in Hrun.
    rewrite Hrun. reflexivity. }
  simpl. split; [done|]. split; [done|]. split; [exact Hgood|].
  split; [done|]. split; [exact Hdocs|]. split; [exact Hkeep|]. done.
Qed.

(** X14: when the engine accepts the pattern of every tag name,
    createQuestion completes and invalidates the path; it appends one
    interaction "ask_question" of the author on the new question, with one
    resolved tag per name, each of them a tag of the store; the author's
    reputation, if the author has a document, goes up by 5 and nobody
    else's moves; with a fresh identifier the store gains the one question,
    tagged with the resolved tags, without votes, views or answers; no
    existing tag is dropped, renamed or moved, and the answers stay. *)
Theorem createQuestion_effects w title content tags author path :
  Forall (λ t, is_Some (RegExp_i (exactly t))) tags →
  let qid := next_oid w in
  ∃ w' docs n',
    createQuestion (CreateQuestionParams.mk title content tags author path) w
    = (Normal tt, w')
    ∧ length docs = length tags
    ∧ (∀ id, In id docs → ∃ t, In t (Tags (db w')) ∧ Tag._id t = id)
    ∧ Interactions (db w')
      = Interactions (db w)
        ++ [Interaction.mk n' author "ask_question" qid docs]
    ∧ reputation_of author (Users (db w'))
      = (λ r, r + 5) <$> reputation_of author (Users (db w))
    ∧ (∀ u, u ≠ author →
         reputation_of u (Users (db w')) = reputation_of u (Users (db w)))
    ∧ (findById qid (Questions (db w)) = None →
       Questions (db w')
       = Questions (db w)
         ++ [Question.mk qid title content author docs [] [] 0 [] (now w)])
    ∧ extends (Tags (db w)) (Tags (db w'))
    ∧ Answers (db w') = Answers (db w)
    ∧ console w' = console w
    ∧ revalidated w' = revalidated w ++ [path].
Proof.
  intros Hall qid.
  destruct (resolve_tags_any qid tags [] (asked title content author w) Hall)
    as (docs & l' & n' & Hrun & Hlen & Hext & Hids & _).
  exists (question_created title content author path docs l' n' w), docs, n'.
  split; [by apply createQuestion_run|]. simpl.
  split; [done|]. split; [done|]. split; [done|].
  split.
  { rewrite reputation_of_inc, decide_True by done.
    by destruct (reputation_of _ _). }
  split; [intros u Hu; by rewrite reputation_of_inc, decide_False|].
  split; [|done].
  intros Hfresh. by rewrite (updateById_app_new (A := Question.t)).
Qed.

(** X15: with well-formed tags and accepted patterns, a name whose pattern
    selects a tag of the store resolves to the first tag it selects,
    whatever the names before it; and when every name selects a tag of the
    store, no tag is created: the identifiers and names of the tag
    collection are the ones before. *)
Theorem createQuestion_reuses_tags w title content tags author path :
  Forall (λ t, is_Some (RegExp_i (exactly t))) tags →
  tags_wf w →
  ∃ w' docs,
    createQuestion (CreateQuestionParams.mk title content tags author path) w
    = (Normal tt, w')
    ∧ Interaction.tags <$> last (Interactions (db w')) = Some docs
    ∧ (∀ k tag re i t,
         tags !! k = Some tag → RegExp_i (exactly tag) = Some re →
         findOne (λ t, re (Tag.name t)) (Tags (db w)) = Some (i, t) →
         docs !! k = Some (Tag._id t))
    ∧ ((∀ tag, In tag tags →
          ∃ re, RegExp_i (exactly tag) = Some re
                ∧ is_Some (findOne (λ t, re (Tag.name t)) (Tags (db w)))) →
       List.map tag_key (Tags (db w')) = List.map tag_key (Tags (db w))).
Proof.
  intros Hall Hwf.
  pose proof (asked_tags_wf title content author w Hwf) as Hwf0.
  destruct (resolve_tags_run (next_oid w) tags [] _ Hall Hwf0)
    as (docs & l' & n' & Hrun & _ & _ & _ & _ & _ & Hres & _).
  destruct (resolve_tags_any (next_oid w) tags []
              (asked title content author w) Hall)
    as (docs2 & l2 & n2 & Hrun2 & _ & _ & _ & Hsame).
  rewrite Hrun in Hrun2. unfold with_Tags, set_Tags in Hrun2.
  simplify_eq/=.
  exists (question_created title content author path docs2 l2 n2 w), docs2.
  split; [by apply createQuestion_run|]. simpl.
  rewrite last_snoc. simpl. split; [done|].
  split.
  - intros k tag re i t Hk Hre Hfind.
    by apply (Hres re i t Hfind k tag re).
  - intros Hmatch. by destruct (Hsame Hmatch).
Qed.
End CreateProperties.

Lemma createQuestion_rejected_tag_witness :
  (Forall (λ t, is_Some (@RegExp_i literal_engine (exactly t))) ["Rust"]
   ∧ @RegExp_i literal_engine (exactly "c++") = None)
  ∧ ∃ w',
      @createQuestion literal_engine
        (CreateQuestionParams.mk "Templates" "How" (["Rust"] ++ "c++" :: [])
           1 "/")
        bare_world = (Normal tt, w')
      ∧ Questions (db w')
        = [Question.mk 50 "Templates" "How" 1 [] [] [] 0 [] 2000]
      ∧ Tags (db w') = [Tag.mk 51 "Rust" [50%N]]
      ∧ Users (db w') = [alice]
      ∧ Interactions (db w') = []
      ∧ console w' = [SyntaxError "^c++$"].
Proof.
  assert (Hall : Forall (λ t, is_Some (@RegExp_i literal_engine (exactly t)))
                   ["Rust"]).
  { repeat constructor; vm_compute; by eexists. }
  split; [split; [exact Hall | reflexivity]|].
  destruct (@createQuestion_rejected_tag literal_engine bare_world
              "Templates" "How" ["Rust"] "c++" [] 1%N "/" Hall eq_refl)
    as (w' & docs & n' & Hrun & Hq & _ & Hloop & _ & _ & _ & Hu & Hi & _ & _
        & Hc).
  exists w'. split; [exact Hrun|]. split; [exact Hq|].
  split; [by injection Hloop as _ <- _|].
  split; [exact Hu|]. split; [exact Hi | exact Hc].
Defined.

Lemma createQuestion_effects_witness :
  Forall (λ t, is_Some (@RegExp_i literal_engine (exactly t)))
    ["Rust"; "wasm"]
  ∧ ∃ w' docs n',
      @createQuestion literal_engine
        (CreateQuestionParams.mk "Targets" "How" ["Rust"; "wasm"] 1 "/")
        bare_world = (Normal tt, w')
      ∧ length docs = 2%nat
      ∧ Interactions (db w')
        = [Interaction.mk n' 1 "ask_question" 50 docs]
      ∧ reputation_of 1%N (Users (db w')) = Some 105.
Proof.
  assert (Hall : Forall (λ t, is_Some (@RegExp_i literal_engine (exactly t)))
                   ["Rust"; "wasm"]).
  { repeat constructor; vm_compute; by eexists. }
  split; [exact Hall|].
  destruct (@createQuestion_effects literal_engine bare_world
              "Targets" "How" ["Rust"; "wasm"] 1%N "/" Hall)
    as (w' & docs & n' & Hrun & Hlen & _ & Hi & Hrep & _).
  exists w', docs, n'. split; [exact Hrun|]. split; [exact Hlen|].
  split; [exact Hi | exact Hrep].
Defined.

Lemma createQuestion_reuses_tags_witness :
  (Forall (λ t, is_Some (@RegExp_i literal_engine (exactly t))) ["RUST"]
   ∧ tags_wf sample_world)
  ∧ ∃ w' (docs : list ObjectId),
      @createQuestion literal_engine
        (CreateQuestionParams.mk "Targets" "How" ["RUST"] 2 "/")
        sample_world = (Normal tt, w')
      ∧ docs !! 0%nat = Some 20%N
      ∧ List.map tag_key (Tags (db w')) = [(20%N, "rust")].
Proof.
  assert (Hall : Forall (λ t, is_Some (@RegExp_i literal_engine (exactly t)))
                   ["RUST"]).
  { repeat constructor; vm_compute; by eexists. }
  assert (Hwf : tags_wf sample_world).
  { split; [apply NoDup_singleton|]. intros t [<-|[]]. reflexivity. }
  split; [split; [exact Hall | exact Hwf]|].
  destruct (@createQuestion_reuses_tags literal_engine sample_world
              "Targets" "How" ["RUST"] 2%N "/" Hall Hwf)
    as (w' & docs & Hrun & _ & Hres & Hsame).
  exists w', docs. split; [exact Hrun|]. split.
  - apply (Hres 0%nat "RUST"
             (λ s, String.eqb (toLowerCase s) (toLowerCase "RUST"))
             0%nat (Tag.mk 20 "rust" [10%N])); reflexivity.
  - apply Hsame. intros tag [<-|[]].
    exists (λ s, String.eqb (toLowerCase s) (toLowerCase "RUST")).
    split; [reflexivity|]. by eexists.
Defined.

Lemma keys_pull_question qid (p : Tag.t → bool) (l : list Tag.t) :
  List.map tag_key (updateMany p (pull_question qid) l) = List.map tag_key l.
Proof.
  unfold updateMany. induction l as [|t l IH]; simpl; [done|].
  rewrite IH. by destruct (p t).
Qed.

Section CreateThenDelete.
Context `{RegExpEngine}.

(** X16: deleting the question that createQuestion just made (accepted
    patterns, fresh identifier) undoes it for the author and the
    collections of questions and users: the questions and the users are
    those before the two calls, no tag lists the question, and the
    interactions left are those before that do not refer to it.  The tags
    that the creation added stay: the tags after the deletion are the tags
    after the creation, each at its place under its identifier and name,
    with the question pulled out of its list. *)
Theorem create_then_delete w title content tags author path path' :
  Forall (λ t, is_Some (RegExp_i (exactly t))) tags →
  findById (next_oid w) (Questions (db w)) = None →
  let qid := next_oid w in
  ∃ w1 w2,
    createQuestion (CreateQuestionParams.mk title content tags author path) w
    = (Normal tt, w1)
    ∧ deleteQuestion (DeleteQuestionParams.mk qid path') w1 = (Normal tt, w2)
    ∧ Questions (db w2) = Questions (db w)
    ∧ Users (db w2) = Users (db w)
    ∧ (∀ t, In t (Tags (db w2)) → ¬ In qid (Tag.questions t))
    ∧ extends (Tags (db w)) (Tags (db w2))
    ∧ extends (Tags (db w)) (Tags (db w1))
    ∧ Tags (db w2)
      = List.map
          (λ t, Tag.mk (Tag._id t) (Tag.name t) (pull qid (Tag.questions t)))
          (Tags (db w1))
    ∧ List.map tag_key (Tags (db w2)) = List.map tag_key (Tags (db w1))
    ∧ (∀ i, In i (Interactions (db w2))
            ↔ In i (Interactions (db w)) ∧ Interaction.question i ≠ qid)
    ∧ (∀ a, In a (Answers (db w2))
            ↔ In a (Answers (db w)) ∧ Answer.question a ≠ qid).
Proof.
  intros Hall Hfresh qid. subst qid.
  destruct (resolve_tags_any (next_oid w) tags []
              (asked title content author w) Hall)
    as (docs & l' & n' & Hrun & _ & Hext & _).
  pose proof (createQuestion_run w title content tags author path docs l' n'
                Hrun) as H1.
  set (w1 := question_created title content author path docs l' n' w) in *.
  assert (Hq1 : Questions (db w1)
                = Questions (db w)
                  ++ [Question.mk (next_oid w) title content author docs [] [] 0 []
                        (now w)]).
  { subst w1. simpl. by rewrite (updateById_app_new (A := Question.t)). }
  assert (Hfind : findById (next_oid w) (Questions (db w1))
                  = Some (Question.mk (next_oid w) title content author docs
                            [] [] 0 [] (now w))).
  { rewrite Hq1, findById_app_new, Hfresh. by rewrite decide_True. }
  pose proof (deleteQuestion_found w1 (next_oid w) path' _ Hfind) as H2.
  eexists _, _. split; [exact H1|]. split; [exact H2|]. simpl.
  split.
  { change (updateById (next_oid w) _ _) with (Questions (db w1)).
    rewrite Hq1. by apply (deleteOne_app_new (A := Question.t)). }
  split.
  { rewrite updateById_twice by done. apply updateById_same.
    intros u. rewrite inc_reputation_twice. apply inc_reputation_zero. }
  split; [apply pulled_from_every_tag|].
  split.
  { eapply extends_trans; [exact Hext|]. unfold extends.
    by rewrite keys_pull_question. }
  split; [exact Hext|].
  split; [apply pull_question_all|].
  split; [apply keys_pull_question|].
  split.
  - intros i. rewrite deleteMany_In, in_app_iff, N.eqb_neq. simpl.
    split; [|tauto]. intros [[Hi|[<-|[]]] Hne]; [done|]. by simpl in Hne.
  - intros a. rewrite deleteMany_In, N.eqb_neq. tauto.
Qed.
End CreateThenDelete.

Lemma create_then_delete_witness :
  (Forall (λ t, is_Some (@RegExp_i literal_engine (exactly t))) ["Rust"]
   ∧ findById (next_oid sample_world) (Questions (db sample_world)) = None)
  ∧ ∃ w1 w2,
      @createQuestion literal_engine
        (CreateQuestionParams.mk "Targets" "How" ["Rust"] 2 "/") sample_world
      = (Normal tt, w1)
      ∧ deleteQuestion (DeleteQuestionParams.mk 50 "/") w1 = (Normal tt, w2)
      ∧ Questions (db w2) = [sample_question]
      ∧ Users (db w2) = [alice; bob]
      ∧ List.map tag_key (Tags (db w2)) = List.map tag_key (Tags (db w1)).
Proof.
  assert (Hall : Forall (λ t, is_Some (@RegExp_i literal_engine (exactly t)))
                   ["Rust"]).
  { repeat constructor; vm_compute; by eexists. }
  split; [split; [exact Hall | reflexivity]|].
  destruct (@create_then_delete literal_engine sample_world "Targets" "How"
              ["Rust"] 2%N "/" "/" Hall eq_refl)
    as (w1 & w2 & H1 & H2 & Hq & Hu & _ & _ & _ & _ & Hkeys & _).
  exists w1, w2. split; [exact H1|]. split; [exact H2|].
  split; [exact Hq|]. split; [exact Hu | exact Hkeys].
Defined.

(** ** Recommending and searching: further properties *)

Lemma NoDup_distinct l : NoDup (distinct l).
Proof.
  induction l as [|x l IH]; simpl; [apply NoDup_nil_2|].
  apply NoDup_cons_2.
  - rewrite list_elem_of_In, filter_In, N.eqb_refl. by intros [_ ?].
  - clear -IH. induction (distinct l) as [|y r IHr]; simpl; [done|].
    apply NoDup_cons in IH as [Hy Hr].
    destruct (negb (N.eqb y x)); [|by apply IHr].
    apply NoDup_cons_2; [|by apply IHr].
    rewrite list_elem_of_In, filter_In. intros [Hin _]. apply Hy.
    by apply list_elem_of_In.
Qed.

(** X17: the tag identifiers a recommendation looks for hold no
    identifier twice, and they are exactly the tag references of the user's
    interactions that resolve to a tag of the store. *)
Theorem distinctUserTagIds_exact d user :
  NoDup (distinctUserTagIds d user)
  ∧ ∀ t, In t (distinctUserTagIds d user)
         ↔ In t (history_tags d user) ∧ tag_exists d t = true.
Proof.
  split; [apply NoDup_distinct|].
  intros t. split.
  - intros Ht. destruct (distinctUserTagIds_history d user t Ht)
      as [Hh [tag Htag]].
    split; [done|]. unfold tag_exists. by rewrite Htag.
  - intros [Hh Hex]. unfold history_tags in Hh.
    apply in_flat_map in Hh as (i & Hi & Ht).
    unfold tag_exists in Hex.
    destruct (findById t (Tags d)) as [tag|] eqn:Htag; [|done].
    destruct (findById_In _ _ _ Htag) as [_ Hid].
    unfold distinctUserTagIds. rewrite In_distinct, in_map_iff.
    exists tag. split; [done|].
    apply In_fold_left_app. right.
    exists (populate_tags d (Interaction.tags i)).
    split; [apply in_map_iff; by exists i|].
    unfold populate_tags. apply list_elem_of_In, list_elem_of_omap.
    exists t. split; [by apply list_elem_of_In|done].
Qed.

Lemma shares_none (tags : list ObjectId) :
  List.existsb (λ t, List.existsb (N.eqb t) []) tags = false.
Proof. induction tags as [|t tags IH]; simpl; [done|exact IH]. Qed.

Section RecommendProperties.
Context `{RegExpEngine}.

Lemma recommended_none d user searchQuery (l : list Question.t) :
  List.filter (recommended d [] user searchQuery) l = [].
Proof.
  induction l as [|q l IH]; simpl; [done|].
  unfold recommended at 1. by rewrite shares_none.
Qed.

(** X18: for a caller the store does not know, getRecommendedQuestions
    throws "user not found" before it looks at the page or at the search
    text; the error is logged and the store is not changed. *)
Theorem getRecommendedQuestions_unknown_user w params :
  findOne (λ u, String.eqb (User.clerkId u) (RecommendedParams.userId params))
    (Users (db w)) = None →
  getRecommendedQuestions params w
  = (Throw (Error "user not found"), logged (Error "user not found") w).
Proof.
  destruct params as [userId page pageSize searchQuery]; simpl. intros Hu.
  unfold getRecommendedQuestions, logged. run. by rewrite Hu.
Qed.

(** X19: a search text whose pattern the engine rejects makes getQuestions
    throw the syntax error to its caller, whatever the filter and the page;
    the error is logged once and the store is not changed. *)
Theorem rejected_search_pattern_throws w s searchQuery :
  truthy searchQuery = Some s →
  RegExp_i s = None →
  ∀ filter page pageSize,
    getQuestions (GetQuestionsParams.mk searchQuery filter page pageSize) w
    = (Throw (SyntaxError s), logged (SyntaxError s) w).
Proof.
  intros Ht Hre filter page pageSize. unfold getQuestions, logged. run.
  by rewrite Ht, Hre.
Qed.

(** X20: a known user without any interaction is recommended nothing: for
    a page of at least 1 and an accepted search text the result is the
    empty list, with isNext false. *)
Theorem no_history_no_recommendation w userId page pageSize searchQuery
    i user :
  findOne (λ u, String.eqb (User.clerkId u) userId) (Users (db w))
  = Some (i, user) →
  (∀ x, In x (Interactions (db w)) → Interaction.user x ≠ User._id user) →
  1 ≤ default 1 page → 0 ≤ default 10 pageSize →
  (∀ s, truthy searchQuery = Some s → is_Some (RegExp_i s)) →
  getRecommendedQuestions
    (RecommendedParams.mk userId page pageSize searchQuery) w
  = (Normal ([], false), w).
Proof.
  intros Hu Hnone Hpage Hsize Hre.
  destruct (getRecommendedQuestions_total w userId page pageSize searchQuery)
    as [[qs isNext] Hrun]; [by eexists|nia|done|].
  rewrite Hrun.
  apply getRecommendedQuestions_returns in Hrun
    as (user' & Hu' & _ & Hskip & Hqs & HisNext).
  rewrite Hu in Hu'. simpl in Hu'. injection Hu' as <-.
  assert (Hids : distinctUserTagIds (db w) (User._id user) = []).
  { unfold distinctUserTagIds, find.
    assert (List.filter (λ x, N.eqb (Interaction.user x) (User._id user))
              (Interactions (db w)) = []) as ->; [|done].
    induction (Interactions (db w)) as [|x l IH]; simpl; [done|].
    destruct (N.eqb (Interaction.user x) (User._id user)) eqn:E.
    - apply N.eqb_eq in E. destruct (Hnone x); [by left|done].
    - apply IH. intros y Hy. apply Hnone. by right. }
  rewrite Hids in Hqs, HisNext.
  assert (Hsel : List.filter
                   (recommended (db w) [] (User._id user) searchQuery)
                   (Questions (db w)) = []).
  { apply recommended_none. }
  rewrite Hsel in Hqs, HisNext. rewrite drop_nil in Hqs.
  assert (qs = []) as ->.
  { rewrite Hqs. unfold apply_limit. case_match; [done|by rewrite take_nil]. }
  simpl in HisNext. rewrite HisNext.
  repeat f_equal. apply Z.ltb_ge. lia.
Qed.

(** X21: a first page that is large enough holds every recommendation: for
    a page size of at least 1 that is not below the number of questions of
    the store, a question of the store by somebody else that carries a tag
    the recommendation looks for, and that the search text selects, is
    among the questions returned; isNext is false. *)
Theorem first_page_recommends_all w userId pageSize searchQuery qs isNext
    w' i user :
  findOne (λ u, String.eqb (User.clerkId u) userId) (Users (db w))
  = Some (i, user) →
  1 ≤ pageSize →
  Z.of_nat (length (Questions (db w))) ≤ pageSize →
  getRecommendedQuestions
    (RecommendedParams.mk userId None (Some pageSize) searchQuery) w
  = (Normal (qs, isNext), w') →
  isNext = false
  ∧ ∀ q t,
      In q (Questions (db w)) →
      Question.author q ≠ User._id user →
      In t (Question.tags q) →
      In t (distinctUserTagIds (db w) (User._id user)) →
      search_matches searchQuery q = true →
      In q (List.map pq_doc qs).
Proof.
  intros Hu Hsize Hlarge
    (user' & Hu' & _ & _ & Hqs & HisNext)%getRecommendedQuestions_returns.
  rewrite Hu in Hu'. simpl in Hu'. injection Hu' as <-.
  change (default 1 None) with 1 in *.
  change (default 10 (Some pageSize)) with pageSize in *.
  replace ((1 - 1) * pageSize) with 0 in * by lia.
  change (Z.to_nat 0) with 0%nat in *. rewrite drop_0 in Hqs.
  set (selected := List.filter
                     (recommended (db w)
                        (distinctUserTagIds (db w) (User._id user))
                        (User._id user) searchQuery) (Questions (db w))) in *.
  assert (Hle : (length selected ≤ length (Questions (db w)))%nat)
    by apply List.filter_length_le.
  assert (Hall : apply_limit pageSize selected = selected).
  { unfold apply_limit. case_match; [done|]. apply take_ge. lia. }
  rewrite Hall in Hqs. split.
  - rewrite HisNext, Hqs, length_map. apply Z.ltb_ge. lia.
  - intros q t Hq Hauthor Ht Hid Hsearch.
    rewrite Hqs, populated_docs. apply filter_In. split; [done|].
    unfold recommended. rewrite Hsearch, andb_true_r.
    apply andb_true_intro. split.
    + apply existsb_exists. exists t. split; [done|].
      by apply existsb_eqb_In.
    + by apply negb_true_iff, N.eqb_neq.
Qed.
End RecommendProperties.

Lemma getRecommendedQuestions_unknown_user_witness :
  findOne (λ u, String.eqb (User.clerkId u) "clerk_carol")
    (Users (db sample_world)) = None
  ∧ @getRecommendedQuestions literal_engine
      (RecommendedParams.mk "clerk_carol" (Some 0) None (Some "c++"))
      sample_world
    = (Throw (Error "user not found"),
       mkWorld sample_db 50 2000 [Error "user not found"] []).
Proof.
  split; [reflexivity|].
  exact (@getRecommendedQuestions_unknown_user literal_engine sample_world
           (RecommendedParams.mk "clerk_carol" (Some 0) None (Some "c++"))
           eq_refl).
Defined.

Lemma rejected_search_pattern_throws_witness :
  (truthy (Some "c++") = Some "c++" ∧ @RegExp_i literal_engine "c++" = None)
  ∧ @getQuestions literal_engine
      (GetQuestionsParams.mk (Some "c++") None None None) sample_world
    = (Throw (SyntaxError "c++"),
       mkWorld sample_db 50 2000 [SyntaxError "c++"] []).
Proof.
  split; [split; reflexivity|].
  exact (@rejected_search_pattern_throws literal_engine sample_world
           "c++" (Some "c++") eq_refl eq_refl None None None).
Defined.

Lemma no_history_no_recommendation_witness :
  (findOne (λ u, String.eqb (User.clerkId u) "clerk_bob")
     (Users (db listing_world)) = Some (1%nat, bob)
   ∧ (∀ x, In x (Interactions (db listing_world)) →
        Interaction.user x ≠ User._id bob)
   ∧ 1 ≤ default 1 None ∧ 0 ≤ default 10 None
   ∧ (∀ s, truthy None = Some s → is_Some (@RegExp_i literal_engine s)))
  ∧ @getRecommendedQuestions literal_engine
      (RecommendedParams.mk "clerk_bob" None None None) listing_world
    = (Normal ([], false), listing_world).
Proof.
  assert (Hnone : ∀ x, In x (Interactions (db listing_world)) →
                    Interaction.user x ≠ User._id bob).
  { intros x [<-|[]]. discriminate. }
  assert (H1 : 1 ≤ default 1 None) by (simpl; lia).
  assert (H0 : 0 ≤ default 10 None) by (simpl; lia).
  assert (Hre : ∀ s, truthy None = Some s
                  → is_Some (@RegExp_i literal_engine s))
    by (intros s [=]).
  split; [repeat split; assumption || reflexivity|].
  exact (@no_history_no_recommendation literal_engine listing_world
           "clerk_bob" None None None 1%nat bob eq_refl Hnone H1 H0 Hre).
Defined.

Lemma first_page_recommends_all_witness :
  (findOne (λ u, String.eqb (User.clerkId u) "clerk_bob")
     (Users (db sample_world)) = Some (1%nat, bob)
   ∧ 1 ≤ 3
   ∧ Z.of_nat (length (Questions (db sample_world))) ≤ 3
   ∧ @getRecommendedQuestions literal_engine
       (RecommendedParams.mk "clerk_bob" None (Some 3) None) sample_world
     = (Normal ([populate_question sample_db sample_question], false),
        sample_world))
  ∧ In sample_question
      (List.map pq_doc [populate_question sample_db sample_question]).
Proof.
  assert (H1 : 1 ≤ 3) by lia.
  assert (H3 : Z.of_nat (length (Questions (db sample_world))) ≤ 3)
    by (simpl; lia).
  assert (Hrun :
    @getRecommendedQuestions literal_engine
      (RecommendedParams.mk "clerk_bob" None (Some 3) None) sample_world
    = (Normal ([populate_question sample_db sample_question], false),
       sample_world)) by (vm_compute; reflexivity).
  split; [repeat split; assumption || reflexivity|].
  apply (proj2 (@first_page_recommends_all literal_engine sample_world
                  "clerk_bob" 3 None _ _ _ 1%nat bob eq_refl H1 H3 Hrun)
           sample_question 20%N).
  - by left.
  - discriminate.
  - by left.
  - vm_compute. by left.
  - reflexivity.
Defined.
